(** * DevToolsManager: the aggregation core of the event-broker devtools

    A shallow embedding of the [DevToolsManager] class and of the types of
    [src/types/index.ts].

    Conventions of the embedding.
    - Counters and sizes are JavaScript numbers that only ever hold
      non-negative integers; they are [nat].  Clock readings ([Date.now()])
      and latencies are [Z].
    - A [Map<string, number>] is a [gmap string nat]; a missing key reads as
      [undefined], and the idiom [(m.get(k) || 0) + 1] is [incr].
    - The [byType] tables are plain objects indexed by the event type.  A
      read that finds no own property falls back on [Object.prototype], so
      they are maps of own properties together with that fallback; the idiom
      [o[k] = (o[k] || 0) + 1] on them is [bump].
    - Objects are values here.  The one object the code shares between two
      owners and then changes in place is the pair of ACK and NACK tallies,
      which [buildDeliveryStats] puts into the snapshot as they are:
      [ds_shared] records the sharing and [write_acks] and [write_nacks]
      write to both owners.
    - An optional field is an [option]; JavaScript truthiness of an optional
      string ([undefined] and the empty string are falsy) is [truthy].
    - The broker is an external object the manager holds by reference.  The
      [Broker] record is the answer that object gives to each query at the
      moment it is asked; the action [BrokerChanges] replaces it when the
      outside world mutates the broker.
    - Calls that leave the manager (broker commands, hook registration, the
      timer API) are returned as a list of [Call]s, in the order the code
      makes them.
    - [updateStatePartial] also hands the new state to every listener and
      writes the settings to local storage.  Neither changes the manager, and
      both are left out of the list of calls. *)

From stdpp Require Import gmap strings list fin_maps pretty.
From Stdlib Require Import QArith.

#[local] Set Warnings "-clear-no-such-hyp".

Local Open Scope string_scope.
Local Open Scope list_scope.
Local Open Scope nat_scope.

(** ** JavaScript idioms *)

(** The result of calling into the broker: the call throws (which covers a
    missing method), or returns. *)
Inductive Answer (A : Type) : Type :=
| Throws
| Returns (a : A).
Arguments Throws {A}.
Arguments Returns {A} a.

(** [s] used as a condition, for [s : string | undefined]. *)
Definition truthy (o : option string) : option string :=
  match o with
  | Some s => if decide (s = "") then None else Some s
  | None => None
  end.

(** [o || d] for [o : string | undefined]. *)
Definition or_else (o : option string) (d : string) : string :=
  default d (truthy o).

(** [n] used as a condition, for [n : number | undefined]. *)
Definition truthy_num (o : option Z) : option Z :=
  match o with
  | Some n => if decide (n = 0%Z) then None else Some n
  | None => None
  end.

(** [m.set(k, (m.get(k) || 0) + 1)] and [o[k] = (o[k] || 0) + 1]. *)
Definition incr (k : string) (m : gmap string nat) : gmap string nat :=
  <[k := default 0 (m !! k) + 1]> m.

(** [m.get(k) || 0]. *)
Definition count (k : string) (m : gmap string nat) : nat :=
  default 0 (m !! k).

(** The property names a plain object inherits from [Object.prototype]. *)
Definition object_prototype : list string :=
  ["constructor"; "hasOwnProperty"; "isPrototypeOf"; "propertyIsEnumerable";
   "toLocaleString"; "toString"; "valueOf";
   "__defineGetter__"; "__defineSetter__"; "__lookupGetter__"; "__lookupSetter__";
   "__proto__"].

(** What an own property of a [byType] table holds: a number, or a string,
    namely the text of the member of [Object.prototype] called [member]
    followed by [ones] digits 1. *)
Inductive Slot :=
| Num (n : nat)
| Text (member : string) (ones : nat).

(** [o[k] = (o[k] || 0) + 1] on a plain object [o], given by its own
    properties.  An own number is incremented; an own string, which is
    truthy, gets the digit 1 appended.  Without an own property the read
    yields the inherited member when [k] names one: a function, whose sum
    with 1 is its text followed by 1, stored as an own property; except for
    [__proto__], which reads as the prototype object and whose setter ignores
    the string assigned.  Under any other name the read is [undefined] and 1
    is stored. *)
Definition bump (k : string) (o : gmap string Slot) : gmap string Slot :=
  match o !! k with
  | Some (Num n) => <[k := Num (n + 1)]> o
  | Some (Text member ones) => <[k := Text member (ones + 1)]> o
  | None =>
    if decide (k = "__proto__") then o
    else if decide (k ∈ object_prototype) then <[k := Text k 1]> o
    else <[k := Num 1]> o
  end.

(** [l.slice(-n)]: the last [n] elements, all of [l] when it is shorter. *)
Definition slice_last {A} (n : nat) (l : list A) : list A :=
  drop (length l - n) l.

(** ** Types of [src/types/index.ts] and of the broker *)

Definition Payload := string.

Inductive EventStatus := pending | delivered | failed.

#[global] Instance EventStatus_eq_dec : EqDecision EventStatus.
Proof. solve_decision. Defined.

(** The broker's [Event]: the fields the manager reads. *)
Record Event := {
  ev_id : string;
  ev_type : string;
  ev_source : option string;
  ev_recipient : option string;      (* event["mfe-recipient"] *)
  ev_time : option string;
  ev_data : option Payload;          (* [None]: missing or falsy *)
}.

(** The broker's [EventResult]. *)
Record EventResult := {
  res_status : string;
  res_message : string;
  res_timestamp : Z;
  res_clientId : option string;
  res_data : option Payload;
}.

Record EventDetails := {
  ed_id : string;
  ed_type : string;
  ed_source : option string;
  ed_recipient : string;
  ed_timestamp : string;
  ed_data : Payload;
  ed_latency : option Z;
  ed_status : EventStatus;
  ed_deliveryResult : option (bool * bool);      (* success, handled *)
  ed_brokerResponse : option EventResult;
}.

Inductive DevToolsPosition := pos_bottom | pos_right | pos_left | pos_floating.
Inductive Theme := theme_light | theme_dark | theme_auto.
Inductive Tab := tab_overview | tab_events | tab_clients | tab_debug.

Record EventFilters := {
  types : list string;
  sources : list string;
  recipients : list string;
  status : list EventStatus;
}.

Record DevToolsSettings := {
  isOpen : bool;
  position : DevToolsPosition;
  activeTab : Tab;
  eventFilters : EventFilters;
  maxEvents : nat;
  autoScroll : bool;
  showTimestamps : bool;
}.

Record DevToolsConfig := {
  cfg_position : DevToolsPosition;
  cfg_theme : Theme;
  maxEventHistory : nat;
  cfg_updateInterval : nat;
  enablePersistence : bool;
}.

(** [{ total, byType }], the shape of every tally of the manager. *)
Record Tally := {
  total : nat;
  byType : gmap string Slot;
}.

Record PerformanceMetrics := {
  totalEvents : nat;
  eventsPerSecond : Q;
  averageLatency : Q;
  minLatency : Z;
  maxLatency : Z;
  uptime : Z;
  successRate : Q;
}.

(** [ds_shared] tells whether [acks] and [nacks] are the manager's own two
    tally objects, as in every value [buildDeliveryStats] returns, rather
    than objects of their own. *)
Record DeliveryStats := {
  ds_acks : Tally;
  ds_nacks : Tally;
  totalDelivery : nat;
  ds_successRate : Q;
  ds_shared : bool;
}.

(** The snapshot handed to listeners.  Its [clients] list is no field here:
    nothing in the manager reads it back, and [buildClientsInfo] below is
    what builds it. *)
Record DevToolsState := {
  settings : DevToolsSettings;
  events : list EventDetails;
  metrics : PerformanceMetrics;
  deliveryStats : DeliveryStats;
  isConnected : bool;
  lastUpdate : string;
}.

(** What the broker answers when asked. *)
Record Broker := {
  useOnSubscribeHandler : option (Answer unit);   (* [None]: no such method *)
  getSubscriptions : Answer (option (gmap string (list string)));
  command_throws : bool;                          (* [sendTo] / [broadcast] *)
}.

Inductive Hook := OnSubscribe | BeforeSend | AfterSend.

Definition Timer := positive.

(** Calls made to the outside world. *)
Inductive Call :=
| UseHook (h : Hook)
| Unhook (h : Hook)
| SetInterval (ms : nat)
| ClearInterval (t : Timer)
| SendTo (type sender recipient : string) (payload : Payload)
| Broadcast (type sender : string) (payload : Payload).

(** Readings of the clock, one for each place a handler reads it. *)
Record Clock := {
  date_now : Z;          (* first [Date.now()] *)
  date_now' : Z;         (* second [Date.now()] *)
  iso_now : string;      (* [new Date().toISOString()] *)
}.

(** ** The manager *)

Record InternalMetrics := {
  im_events : Tally;
  latencies : list Z;
  acks : Tally;
  nacks : Tally;
  startTime : Z;
  eventTimers : gmap string Z;
  clientEventsSent : gmap string nat;
  clientEventsReceived : gmap string nat;
  brokerResponses : gmap string EventResult;
}.

Record DevToolsManager := {
  broker : option Broker;
  state : DevToolsState;
  config : DevToolsConfig;
  listeners : gset nat;
  updateInterval : option Timer;
  internalMetrics : InternalMetrics;
}.

(** Field updates. *)
Definition with_events (es : list EventDetails) (s : DevToolsState) : DevToolsState :=
  {| settings := settings s; events := es; metrics := metrics s;
     deliveryStats := deliveryStats s; isConnected := isConnected s;
     lastUpdate := lastUpdate s |}.

Definition with_settings (x : DevToolsSettings) (s : DevToolsState) : DevToolsState :=
  {| settings := x; events := events s; metrics := metrics s;
     deliveryStats := deliveryStats s; isConnected := isConnected s;
     lastUpdate := lastUpdate s |}.

Definition with_deliveryStats (x : DeliveryStats) (s : DevToolsState) : DevToolsState :=
  {| settings := settings s; events := events s; metrics := metrics s;
     deliveryStats := x; isConnected := isConnected s;
     lastUpdate := lastUpdate s |}.

Definition with_state (s : DevToolsState) (m : DevToolsManager) : DevToolsManager :=
  {| broker := broker m; state := s; config := config m;
     listeners := listeners m; updateInterval := updateInterval m;
     internalMetrics := internalMetrics m |}.

Definition with_metrics (im : InternalMetrics) (m : DevToolsManager) : DevToolsManager :=
  {| broker := broker m; state := state m; config := config m;
     listeners := listeners m; updateInterval := updateInterval m;
     internalMetrics := im |}.

Definition with_broker (b : option Broker) (m : DevToolsManager) : DevToolsManager :=
  {| broker := b; state := state m; config := config m;
     listeners := listeners m; updateInterval := updateInterval m;
     internalMetrics := internalMetrics m |}.

Definition with_interval (t : option Timer) (m : DevToolsManager) : DevToolsManager :=
  {| broker := broker m; state := state m; config := config m;
     listeners := listeners m; updateInterval := t;
     internalMetrics := internalMetrics m |}.

Definition with_listeners (ls : gset nat) (m : DevToolsManager) : DevToolsManager :=
  {| broker := broker m; state := state m; config := config m;
     listeners := ls; updateInterval := updateInterval m;
     internalMetrics := internalMetrics m |}.

(** [t.total++; t.byType[ty] = (t.byType[ty] || 0) + 1]. *)
Definition tally (ty : string) (t : Tally) : Tally :=
  {| total := S (total t); byType := bump ty (byType t) |}.

Definition empty_tally : Tally := {| total := 0; byType := ∅ |}.

Definition set_im_events (t : Tally) (im : InternalMetrics) : InternalMetrics :=
  {| im_events := t; latencies := latencies im; acks := acks im;
     nacks := nacks im; startTime := startTime im;
     eventTimers := eventTimers im; clientEventsSent := clientEventsSent im;
     clientEventsReceived := clientEventsReceived im;
     brokerResponses := brokerResponses im |}.

Definition set_latencies (l : list Z) (im : InternalMetrics) : InternalMetrics :=
  {| im_events := im_events im; latencies := l; acks := acks im;
     nacks := nacks im; startTime := startTime im;
     eventTimers := eventTimers im; clientEventsSent := clientEventsSent im;
     clientEventsReceived := clientEventsReceived im;
     brokerResponses := brokerResponses im |}.

Definition set_acks (t : Tally) (im : InternalMetrics) : InternalMetrics :=
  {| im_events := im_events im; latencies := latencies im; acks := t;
     nacks := nacks im; startTime := startTime im;
     eventTimers := eventTimers im; clientEventsSent := clientEventsSent im;
     clientEventsReceived := clientEventsReceived im;
     brokerResponses := brokerResponses im |}.

Definition set_nacks (t : Tally) (im : InternalMetrics) : InternalMetrics :=
  {| im_events := im_events im; latencies := latencies im; acks := acks im;
     nacks := t; startTime := startTime im;
     eventTimers := eventTimers im; clientEventsSent := clientEventsSent im;
     clientEventsReceived := clientEventsReceived im;
     brokerResponses := brokerResponses im |}.

Definition set_eventTimers (x : gmap string Z) (im : InternalMetrics) : InternalMetrics :=
  {| im_events := im_events im; latencies := latencies im; acks := acks im;
     nacks := nacks im; startTime := startTime im;
     eventTimers := x; clientEventsSent := clientEventsSent im;
     clientEventsReceived := clientEventsReceived im;
     brokerResponses := brokerResponses im |}.

Definition set_clientEventsSent (x : gmap string nat) (im : InternalMetrics) : InternalMetrics :=
  {| im_events := im_events im; latencies := latencies im; acks := acks im;
     nacks := nacks im; startTime := startTime im;
     eventTimers := eventTimers im; clientEventsSent := x;
     clientEventsReceived := clientEventsReceived im;
     brokerResponses := brokerResponses im |}.

Definition set_clientEventsReceived (x : gmap string nat) (im : InternalMetrics) : InternalMetrics :=
  {| im_events := im_events im; latencies := latencies im; acks := acks im;
     nacks := nacks im; startTime := startTime im;
     eventTimers := eventTimers im; clientEventsSent := clientEventsSent im;
     clientEventsReceived := x;
     brokerResponses := brokerResponses im |}.

(** *** Construction *)

Definition default_config : DevToolsConfig :=
  {| cfg_position := pos_bottom; cfg_theme := theme_auto;
     maxEventHistory := 1000; cfg_updateInterval := 1000;
     enablePersistence := true |}.

Definition getInitialState (cfg : DevToolsConfig) (iso : string) : DevToolsState :=
  {| settings :=
       {| isOpen := false; position := cfg_position cfg;
          activeTab := tab_overview;
          eventFilters :=
            {| types := []; sources := []; recipients := []; status := [] |};
          maxEvents := 1000; autoScroll := true; showTimestamps := true |};
     events := [];
     metrics :=
       {| totalEvents := 0; eventsPerSecond := 0; averageLatency := 0;
          minLatency := 0; maxLatency := 0; uptime := 0; successRate := 0 |};
     deliveryStats :=
       {| ds_acks := empty_tally; ds_nacks := empty_tally;
          totalDelivery := 0; ds_successRate := 0; ds_shared := false |};
     isConnected := false;
     lastUpdate := iso |}.

(** The initial value of the [internalMetrics] field; [now] is the
    [Date.now()] read when the object is built. *)
Definition initialMetrics (now : Z) : InternalMetrics :=
  {| im_events := empty_tally; latencies := [];
     acks := empty_tally; nacks := empty_tally;
     startTime := now; eventTimers := ∅;
     clientEventsSent := ∅; clientEventsReceived := ∅;
     brokerResponses := ∅ |}.

(** [saved] is the settings object found in local storage, if any. *)
Definition loadPersistedState (saved : option DevToolsSettings)
    (m : DevToolsManager) : DevToolsManager :=
  if enablePersistence (config m) then
    match saved with
    | Some s => with_state (with_settings s (state m)) m
    | None => m
    end
  else m.

(** [new DevToolsManager(config)]. *)
Definition constructor (cfg : DevToolsConfig) (clk : Clock)
    (saved : option DevToolsSettings) : DevToolsManager :=
  loadPersistedState saved
    {| broker := None; state := getInitialState cfg (iso_now clk);
       config := cfg; listeners := ∅; updateInterval := None;
       internalMetrics := initialMetrics (date_now clk) |}.

(** *** State updates *)

(** [updates] is the merge [{ ...state, ...updates }]. *)
Definition updateStatePartial (updates : DevToolsState → DevToolsState)
    (m : DevToolsManager) : DevToolsManager :=
  with_state (updates (state m)) m.

Definition addEvent (event : EventDetails) (m : DevToolsManager) : DevToolsManager :=
  let es := events (state m) ++ [event] in
  let es :=
    if decide (maxEventHistory (config m) < length es)
    then drop (length es - maxEventHistory (config m)) es
    else es in
  updateStatePartial (with_events es) m.

Definition updateEvent (eventId : string) (updates : EventDetails → EventDetails)
    (m : DevToolsManager) : DevToolsManager :=
  let es :=
    map (λ event, if decide (ed_id event = eventId) then updates event else event)
        (events (state m)) in
  updateStatePartial (with_events es) m.

Definition clearEvents (m : DevToolsManager) : DevToolsManager :=
  updateStatePartial (with_events []) m.

Definition updateSettings (updates : DevToolsSettings → DevToolsSettings)
    (m : DevToolsManager) : DevToolsManager :=
  updateStatePartial (with_settings (updates (settings (state m)))) m.

Definition recordClientSubscription (clientId eventType : string)
    (m : DevToolsManager) : DevToolsManager := m.

Definition subscribe (listener : nat) (m : DevToolsManager) : DevToolsManager :=
  with_listeners ({[listener]} ∪ listeners m) m.

Definition unsubscribe (listener : nat) (m : DevToolsManager) : DevToolsManager :=
  with_listeners (listeners m ∖ {[listener]}) m.

Definition cleanup (m : DevToolsManager) : DevToolsManager :=
  with_listeners ∅ m.

(** *** The two send hooks *)

(** The record both handlers build for an event they have not seen. *)
Definition eventDetails (clk : Clock) (event : Event) : EventDetails :=
  {| ed_id := ev_id event;
     ed_type := ev_type event;
     ed_source := ev_source event;
     ed_recipient := or_else (ev_recipient event) "*";
     ed_timestamp := or_else (ev_time event) (iso_now clk);
     ed_data := default "{}" (ev_data event);
     ed_latency := None;
     ed_status := pending;
     ed_deliveryResult := None;
     ed_brokerResponse := None |}.

(** The counter increments both handlers make for such an event: the total,
    the per-type tally, and the sent counter of the source, if there is one. *)
Definition countEvent (event : Event) (im : InternalMetrics) : InternalMetrics :=
  let im := set_im_events (tally (ev_type event) (im_events im)) im in
  match truthy (ev_source event) with
  | Some source => set_clientEventsSent (incr source (clientEventsSent im)) im
  | None => im
  end.

Definition handleEventStart (clk : Clock) (event : Event)
    (m : DevToolsManager) : DevToolsManager :=
  let im := internalMetrics m in
  let im := set_eventTimers (<[ev_id event := date_now clk]> (eventTimers im)) im in
  let im := countEvent event im in
  addEvent (eventDetails clk event) (with_metrics im m).

Definition handleBroadcastEventComplete (event : Event) (eventResult : EventResult)
    (m : DevToolsManager) : DevToolsManager :=
  match broker m with
  | None => m
  | Some b =>
    if decide (res_status eventResult ≠ "ACK") then m else
    match getSubscriptions b with
    | Throws => m
    | Returns None => m
    | Returns (Some subscriptions) =>
      let im := internalMetrics m in
      let received :=
        map_fold (λ clientId eventTypes received,
                    if decide (Some clientId = ev_source event) then received
                    else if decide (ev_type event ∈ eventTypes)
                         then incr clientId received
                         else received)
                 (clientEventsReceived im) subscriptions in
      with_metrics (set_clientEventsReceived received im) m
    end
  end.

(** [eventResult?.status === "ACK"]. *)
Definition isSuccess (eventResult : option EventResult) : bool :=
  match eventResult with
  | Some r => bool_decide (res_status r = "ACK")
  | None => false
  end.

(** The update [handleEventComplete] applies to the records of the event. *)
Definition completion (ok : bool) (eventResult : option EventResult)
    (latency : option Z) (e : EventDetails) : EventDetails :=
  {| ed_id := ed_id e; ed_type := ed_type e; ed_source := ed_source e;
     ed_recipient := ed_recipient e; ed_timestamp := ed_timestamp e;
     ed_data := ed_data e;
     ed_latency := latency;
     ed_status := if ok then delivered else failed;
     ed_deliveryResult := Some (ok, ok);
     ed_brokerResponse := eventResult |}.

(** [handleEventComplete], block by block.  First block: the record is
    created here when [handleEventStart] did not run for the event. *)
Definition catchUp (clk : Clock) (event : Event) (m : DevToolsManager) : DevToolsManager :=
  match find (λ e, bool_decide (ed_id e = ev_id event)) (events (state m)) with
  | Some _ => m
  | None =>
    addEvent (eventDetails clk event)
             (with_metrics (countEvent event (internalMetrics m)) m)
  end.

(** Second block: the latency sample, when a start time was recorded. *)
Definition recordLatency (clk : Clock) (event : Event) (startTime : option Z)
    (m : DevToolsManager) : DevToolsManager :=
  match startTime with
  | Some t =>
    let im := internalMetrics m in
    let l := latencies im ++ [(date_now clk - t)%Z] in
    let l := if decide (1000 < length l) then slice_last 500 l else l in
    let im := set_latencies l im in
    with_metrics (set_eventTimers (delete (ev_id event) (eventTimers im)) im) m
  | None => m
  end.

(** Third block: the received counters of the recipients. *)
Definition countReceived (event : Event) (eventResult : option EventResult)
    (m : DevToolsManager) : DevToolsManager :=
  let recipient := ev_recipient event in
  if isSuccess eventResult then
    if decide (recipient = Some "*") then
      match eventResult with
      | Some r => handleBroadcastEventComplete event r m
      | None => m
      end
    else
      match truthy recipient with
      | Some recipient =>
        let im := internalMetrics m in
        with_metrics
          (set_clientEventsReceived (incr recipient (clientEventsReceived im)) im) m
      | None => m
      end
  else m.

(** A write to the manager's ACK tally.  When the snapshot shares the
    object, the write shows in [deliveryStats] of the state as well; no
    listener is told, since the state object is not replaced. *)
Definition write_acks (t : Tally) (m : DevToolsManager) : DevToolsManager :=
  let m := with_metrics (set_acks t (internalMetrics m)) m in
  let ds := deliveryStats (state m) in
  if ds_shared ds
  then with_state
         (with_deliveryStats
            {| ds_acks := t; ds_nacks := ds_nacks ds;
               totalDelivery := totalDelivery ds;
               ds_successRate := ds_successRate ds; ds_shared := true |}
            (state m)) m
  else m.

(** The same for the NACK tally. *)
Definition write_nacks (t : Tally) (m : DevToolsManager) : DevToolsManager :=
  let m := with_metrics (set_nacks t (internalMetrics m)) m in
  let ds := deliveryStats (state m) in
  if ds_shared ds
  then with_state
         (with_deliveryStats
            {| ds_acks := ds_acks ds; ds_nacks := t;
               totalDelivery := totalDelivery ds;
               ds_successRate := ds_successRate ds; ds_shared := true |}
            (state m)) m
  else m.

(** Fourth block: the ACK and NACK tallies, incremented in place. *)
Definition recordOutcome (event : Event) (ok : bool) (m : DevToolsManager)
    : DevToolsManager :=
  let im := internalMetrics m in
  if ok then write_acks (tally (ev_type event) (acks im)) m
  else write_nacks (tally (ev_type event) (nacks im)) m.

(** The start time [handleEventComplete] finds for the event, if any. *)
Definition startTime_of (event : Event) (m : DevToolsManager) : option Z :=
  truthy_num (eventTimers (internalMetrics m) !! ev_id event).

Definition handleEventComplete (clk : Clock) (event : Event)
    (eventResult : option EventResult) (m : DevToolsManager) : DevToolsManager :=
  let m := catchUp clk event m in
  let startTime := startTime_of event m in
  let m := recordLatency clk event startTime m in
  let ok := isSuccess eventResult in
  let m := countReceived event eventResult m in
  let m := recordOutcome event ok m in
  updateEvent (ev_id event)
    (completion ok eventResult ((λ t, (date_now' clk - t)%Z) <$> startTime)) m.

(** *** Snapshot production *)

Definition countEventsSentByClient (clientId : string) (m : DevToolsManager) : nat :=
  count clientId (clientEventsSent (internalMetrics m)).

Definition countEventsReceivedByClient (clientId : string) (m : DevToolsManager) : nat :=
  count clientId (clientEventsReceived (internalMetrics m)).

Definition calculateSuccessRate (m : DevToolsManager) : Q :=
  let im := internalMetrics m in
  let sum := total (acks im) + total (nacks im) in
  if decide (0 < sum)
  then (inject_Z (Z.of_nat (total (acks im))) / inject_Z (Z.of_nat sum))%Q
  else 0%Q.

(** [memoryUsage], read from the platform, is left out. *)
Definition buildPerformanceMetrics (clk : Clock) (m : DevToolsManager) : PerformanceMetrics :=
  let im := internalMetrics m in
  let l := latencies im in
  let elapsed := (date_now clk - startTime im)%Z in
  let uptimeSeconds := (inject_Z elapsed / 1000)%Q in
  {| totalEvents := total (im_events im);
     eventsPerSecond :=
       if Qlt_le_dec 0 uptimeSeconds
       then (inject_Z (Z.of_nat (total (im_events im))) / uptimeSeconds)%Q
       else 0%Q;
     averageLatency :=
       if decide (0 < length l)
       then (inject_Z (foldl Z.add 0%Z l) / inject_Z (Z.of_nat (length l)))%Q
       else 0%Q;
     minLatency := match l with [] => 0%Z | x :: l' => foldl Z.min x l' end;
     maxLatency := match l with [] => 0%Z | x :: l' => foldl Z.max x l' end;
     uptime := (elapsed / 1000)%Z;
     successRate := calculateSuccessRate m |}.

(** The two totals are numbers computed now; [acks] and [nacks] are the
    manager's tally objects themselves, not copies. *)
Definition buildDeliveryStats (m : DevToolsManager) : DeliveryStats :=
  let im := internalMetrics m in
  {| ds_acks := acks im;
     ds_nacks := nacks im;
     totalDelivery := total (acks im) + total (nacks im);
     ds_successRate := calculateSuccessRate m;
     ds_shared := true |}.

Definition updateInternalState (clk : Clock) (m : DevToolsManager) : DevToolsManager :=
  updateStatePartial
    (λ s, {| settings := settings s; events := events s;
             metrics := buildPerformanceMetrics clk m;
             deliveryStats := buildDeliveryStats m;
             isConnected := true;
             lastUpdate := iso_now clk |}) m.

Definition getState (m : DevToolsManager) : DevToolsState := state m.

(** *** Attaching and detaching *)

(** [t] is the handle [setInterval] returns. *)
Definition startPeriodicUpdates (t : Timer) (m : DevToolsManager)
    : DevToolsManager * list Call :=
  (with_interval (Some t) m, [SetInterval (cfg_updateInterval (config m))]).

Definition stopPeriodicUpdates (m : DevToolsManager) : DevToolsManager * list Call :=
  match updateInterval m with
  | Some t => (with_interval None m, [ClearInterval t])
  | None => (m, [])
  end.

(** The function [attachTo] returns: it closes over [cleanupFunctions], the
    unregister functions the broker handed out, named here by their hook. *)
Definition detach (cleanupFunctions : list Hook) (m : DevToolsManager)
    : DevToolsManager * list Call :=
  let calls := map Unhook cleanupFunctions in
  let '(m, calls') := stopPeriodicUpdates m in
  (cleanup m, calls ++ calls').

(** Returns the manager, the [cleanupFunctions] of the returned closure, and
    the calls made. *)
Definition attachTo (b : Broker) (t : Timer) (clk : Clock) (m : DevToolsManager)
    : DevToolsManager * list Hook * list Call :=
  let m := with_broker (Some b) m in
  let '(cleanupFunctions, calls) :=
    match useOnSubscribeHandler b with
    | Some (Returns _) => ([OnSubscribe], [UseHook OnSubscribe])
    | Some Throws => ([], [UseHook OnSubscribe])
    | None => ([], [])
    end in
  let cleanupFunctions := cleanupFunctions ++ [BeforeSend; AfterSend] in
  let calls := calls ++ [UseHook BeforeSend; UseHook AfterSend] in
  let '(m, calls') := startPeriodicUpdates t m in
  (updateInternalState clk m, cleanupFunctions, calls ++ calls').

(** *** Test messages *)

Record SendOptions := {
  opt_recipient : option string;
  opt_source : option string;
}.

(** Returns the calls made and whether the method returns or throws (it
    rethrows what the broker's command throws). *)
Definition sendTestMessage (eventType : string) (data : Payload)
    (options : option SendOptions) (m : DevToolsManager) : list Call * Answer unit :=
  match broker m with
  | None => ([], Returns ())
  | Some b =>
    let sender := or_else (options ≫= opt_source) "devtools" in
    let call :=
      match truthy (options ≫= opt_recipient) with
      | Some recipient =>
        if decide (recipient ≠ "*")
        then SendTo eventType sender recipient data
        else Broadcast eventType sender data
      | None => Broadcast eventType sender data
      end in
    ([call], if command_throws b then Throws else Returns ())
  end.

(** ** Runs of the manager *)

(** What can happen to a manager after it is built. *)
Inductive Action :=
| Attach (b : Broker) (t : Timer) (clk : Clock)
| Detach (cleanupFunctions : list Hook)
| SubscribeHook (clientId eventType : string)
| PreSend (clk : Clock) (event : Event)
| PostSend (clk : Clock) (event : Event) (eventResult : option EventResult)
| Tick (clk : Clock)
| ClearEvents
| UpdateSettings (updates : DevToolsSettings → DevToolsSettings)
| Subscribe (listener : nat)
| Unsubscribe (listener : nat)
| BrokerChanges (b : Broker).

Definition step (m : DevToolsManager) (a : Action) : DevToolsManager :=
  match a with
  | Attach b t clk => (attachTo b t clk m).1.1
  | Detach cleanupFunctions => (detach cleanupFunctions m).1
  | SubscribeHook clientId eventType => recordClientSubscription clientId eventType m
  | PreSend clk event => handleEventStart clk event m
  | PostSend clk event eventResult => handleEventComplete clk event eventResult m
  | Tick clk => updateInternalState clk m
  | ClearEvents => clearEvents m
  | UpdateSettings updates => updateSettings updates m
  | Subscribe listener => subscribe listener m
  | Unsubscribe listener => unsubscribe listener m
  | BrokerChanges b =>
    match broker m with Some _ => with_broker (Some b) m | None => m end
  end.

Definition run (m : DevToolsManager) (tr : list Action) : DevToolsManager :=
  foldl step m tr.

(** The two send notifications. *)
Definition is_notification (a : Action) : Prop :=
  match a with PreSend _ _ | PostSend _ _ _ => True | _ => False end.

#[global] Instance is_notification_dec a : Decision (is_notification a).
Proof. destruct a; simpl; apply _. Defined.

(** The actions that refresh the snapshot. *)
Definition refreshes (a : Action) : Prop :=
  match a with Tick _ | Attach _ _ _ => True | _ => False end.

#[global] Instance refreshes_dec a : Decision (refreshes a).
Proof. destruct a; simpl; apply _. Defined.


(** The event id a notification is about. *)
Definition action_id (a : Action) : option string :=
  match a with
  | PreSend _ event | PostSend _ event _ => Some (ev_id event)
  | _ => None
  end.

(** The ids of the notifications of a run, in order. *)
Definition observed (tr : list Action) : list string :=
  omap action_id tr.

(** The ids of the post-send notifications of a run, in order. *)
Definition completed (tr : list Action) : list string :=
  omap (λ a, match a with PostSend _ event _ => Some (ev_id event) | _ => None end) tr.

(** A manager right after [attachTo]. *)
Definition attached (cfg : DevToolsConfig) (saved : option DevToolsSettings)
    (b : Broker) (t : Timer) (clk clk' : Clock) : DevToolsManager :=
  step (constructor cfg clk saved) (Attach b t clk').

(** ** Sample data *)

Definition clock0 : Clock := {| date_now := 1000; date_now' := 1000; iso_now := "t0" |}.
Definition clock1 : Clock := {| date_now := 1007; date_now' := 1008; iso_now := "t1" |}.

Definition mkEvent (id type : string) (source recipient : option string) : Event :=
  {| ev_id := id; ev_type := type; ev_source := source;
     ev_recipient := recipient; ev_time := None; ev_data := None |}.

Definition mkResult (status : string) : EventResult :=
  {| res_status := status; res_message := ""; res_timestamp := 0;
     res_clientId := None; res_data := None |}.

Definition broker0 : Broker :=
  {| useOnSubscribeHandler := Some (Returns ());
     getSubscriptions := Returns (Some {[ "A" := ["pong"]; "B" := ["ping"] ]});
     command_throws := false |}.

Definition manager0 : DevToolsManager :=
  attached default_config None broker0 1%positive clock0 clock0.

(** * Properties *)

(** ** JavaScript idioms *)

Lemma count_incr_eq k (m : gmap string nat) : count k (incr k m) = count k m + 1.
Proof. unfold count, incr. by rewrite lookup_insert_eq. Qed.

Lemma count_incr_ne k k' (m : gmap string nat) :
  k ≠ k' → count k' (incr k m) = count k' m.
Proof. intros Hne. unfold count, incr. by rewrite lookup_insert_ne. Qed.

Lemma truthy_Some o s : truthy o = Some s ↔ o = Some s ∧ s ≠ "".
Proof.
  unfold truthy. destruct o as [s'|]; [|naive_solver].
  case_decide; naive_solver.
Qed.

Lemma truthy_None o : truthy o = None ↔ o = None ∨ o = Some "".
Proof.
  unfold truthy. destruct o as [s'|]; [|naive_solver].
  case_decide; naive_solver.
Qed.

Lemma isSuccess_true eventResult :
  isSuccess eventResult = true ↔ res_status <$> eventResult = Some "ACK".
Proof.
  destruct eventResult as [r|]; simpl; [|done].
  rewrite bool_decide_eq_true. split; [by intros ->|by intros [= ?]].
Qed.

Lemma isSuccess_false eventResult :
  isSuccess eventResult = false ↔ res_status <$> eventResult ≠ Some "ACK".
Proof. rewrite <- isSuccess_true. by destruct (isSuccess eventResult). Qed.

Lemma slice_last_length {A} n (l : list A) : length (slice_last n l) = min n (length l).
Proof. unfold slice_last. rewrite length_drop. lia. Qed.

Lemma slice_last_all {A} n (l : list A) : length l ≤ n → slice_last n l = l.
Proof. intros H. unfold slice_last. by replace (length l - n) with 0 by lia. Qed.

Lemma slice_last_snoc {A} n (l : list A) x :
  0 < n → last (slice_last n (l ++ [x])) = Some x.
Proof.
  intros Hn. unfold slice_last. rewrite length_app. simpl.
  rewrite drop_app_le by lia. apply last_snoc.
Qed.

(** Truncating twice to the same bound is truncating once. *)
Lemma slice_last_app {A} n (l k : list A) :
  slice_last n (slice_last n l ++ k) = slice_last n (l ++ k).
Proof.
  unfold slice_last. rewrite !drop_app, drop_drop, !length_app, !length_drop.
  f_equal; f_equal; lia.
Qed.

Lemma remove_dups_NoDup `{EqDecision A} (l : list A) :
  NoDup l → remove_dups l = l.
Proof.
  induction 1 as [|x l Hx Hnd IH]; [done|].
  simpl. destruct (decide_rel elem_of x l); [done|]. by rewrite IH.
Qed.


(** ** The blocks of [handleEventComplete] *)

(** Whether the history holds a record of the event. *)
Definition known (event : Event) (m : DevToolsManager) : bool :=
  bool_decide (ev_id event ∈ ed_id <$> events (state m)).

Lemma find_id l x :
  is_Some (find (λ e, bool_decide (ed_id e = x)) l) ↔ x ∈ ed_id <$> l.
Proof.
  induction l as [|e l IH]; simpl.
  - split; [by intros [? ?]|intros H; inversion H].
  - rewrite elem_of_cons. case_bool_decide; [naive_solver|].
    rewrite IH. naive_solver.
Qed.

(** The append to the latency buffer. *)
Definition push_latency (latency : Z) (l : list Z) : list Z :=
  let l := l ++ [latency] in
  if decide (1000 < length l) then slice_last 500 l else l.

(** The received counters the third block leaves. *)
Definition received_after (event : Event) (eventResult : option EventResult)
    (m : DevToolsManager) : gmap string nat :=
  let received := clientEventsReceived (internalMetrics m) in
  if isSuccess eventResult then
    if decide (ev_recipient event = Some "*") then
      match broker m with
      | Some b =>
        match getSubscriptions b with
        | Returns (Some subscriptions) =>
          map_fold (λ clientId eventTypes received,
                      if decide (Some clientId = ev_source event) then received
                      else if decide (ev_type event ∈ eventTypes)
                           then incr clientId received
                           else received)
                   received subscriptions
        | _ => received
        end
      | None => received
      end
    else
      match truthy (ev_recipient event) with
      | Some recipient => incr recipient received
      | None => received
      end
  else received.

(** The parts of a manager the properties below speak about. *)
Record View := {
  v_config : DevToolsConfig;
  v_broker : option Broker;
  v_events : list EventDetails;
  v_total : nat;
  v_acks : nat;
  v_nacks : nat;
  v_latencies : list Z;
  v_timers : gmap string Z;
  v_received : gmap string nat;
}.

Definition view (m : DevToolsManager) : View :=
  let im := internalMetrics m in
  {| v_config := config m; v_broker := broker m; v_events := events (state m);
     v_total := total (im_events im);
     v_acks := total (acks im); v_nacks := total (nacks im);
     v_latencies := latencies im; v_timers := eventTimers im;
     v_received := clientEventsReceived im |}.

Lemma addEvent_events event m :
  events (state (addEvent event m))
  = slice_last (maxEventHistory (config m)) (events (state m) ++ [event]).
Proof.
  unfold addEvent. simpl. case_decide; [done|].
  by rewrite slice_last_all by lia.
Qed.

Lemma catchUp_view clk event m :
  view (catchUp clk event m)
  = let v := view m in
    {| v_config := v_config v; v_broker := v_broker v;
       v_events :=
         if known event m then v_events v
         else slice_last (maxEventHistory (v_config v))
                         (v_events v ++ [eventDetails clk event]);
       v_total := v_total v + (if known event m then 0 else 1);
       v_acks := v_acks v; v_nacks := v_nacks v;
       v_latencies := v_latencies v; v_timers := v_timers v;
       v_received := v_received v |}.
Proof.
  unfold catchUp, known. destruct (find _ _) as [e|] eqn:Hfind.
  - rewrite bool_decide_eq_true_2 by (apply find_id; eauto).
    unfold view. simpl. f_equal. lia.
  - rewrite bool_decide_eq_false_2
      by (rewrite <- find_id, Hfind; by intros [? ?]).
    unfold view. rewrite addEvent_events. unfold countEvent.
    destruct (truthy (ev_source event)); simpl; f_equal; lia.
Qed.

Lemma recordLatency_view clk event startTime m :
  view (recordLatency clk event startTime m)
  = let v := view m in
    {| v_config := v_config v; v_broker := v_broker v; v_events := v_events v;
       v_total := v_total v; v_acks := v_acks v; v_nacks := v_nacks v;
       v_latencies :=
         match startTime with
         | Some t => push_latency (date_now clk - t) (v_latencies v)
         | None => v_latencies v
         end;
       v_timers :=
         match startTime with
         | Some _ => delete (ev_id event) (v_timers v)
         | None => v_timers v
         end;
       v_received := v_received v |}.
Proof.
  destruct startTime as [t|]; [|reflexivity].
  unfold recordLatency, push_latency, view. reflexivity.
Qed.

Lemma countReceived_view event eventResult m :
  view (countReceived event eventResult m)
  = let v := view m in
    {| v_config := v_config v; v_broker := v_broker v; v_events := v_events v;
       v_total := v_total v; v_acks := v_acks v; v_nacks := v_nacks v;
       v_latencies := v_latencies v; v_timers := v_timers v;
       v_received := received_after event eventResult m |}.
Proof.
  unfold countReceived, received_after.
  destruct (isSuccess eventResult) eqn:Hok; [|done].
  apply isSuccess_true in Hok. destruct eventResult as [r|]; [|done].
  injection Hok as Hok. cbn zeta. case_decide.
  - unfold handleBroadcastEventComplete.
    destruct (broker m) as [b|]; [|done].
    rewrite decide_False by (by intros []).
    by destruct (getSubscriptions b) as [|[subs|]].
  - by destruct (truthy (ev_recipient event)).
Qed.

Lemma recordOutcome_view event ok m :
  view (recordOutcome event ok m)
  = let v := view m in
    {| v_config := v_config v; v_broker := v_broker v; v_events := v_events v;
       v_total := v_total v;
       v_acks := v_acks v + (if ok then 1 else 0);
       v_nacks := v_nacks v + (if ok then 0 else 1);
       v_latencies := v_latencies v; v_timers := v_timers v;
       v_received := v_received v |}.
Proof.
  unfold recordOutcome, write_acks, write_nacks. cbv zeta.
  destruct ok; simpl; destruct (ds_shared _); unfold view; simpl; f_equal; lia.
Qed.

Lemma updateEvent_view eventId updates m :
  view (updateEvent eventId updates m)
  = let v := view m in
    {| v_config := v_config v; v_broker := v_broker v;
       v_events :=
         map (λ e, if decide (ed_id e = eventId) then updates e else e) (v_events v);
       v_total := v_total v; v_acks := v_acks v; v_nacks := v_nacks v;
       v_latencies := v_latencies v; v_timers := v_timers v;
       v_received := v_received v |}.
Proof. done. Qed.

Lemma startTime_of_view event m m' :
  v_timers (view m') = v_timers (view m) → startTime_of event m' = startTime_of event m.
Proof. unfold startTime_of. simpl. by intros ->. Qed.

Lemma received_after_view event eventResult m m' :
  v_broker (view m') = v_broker (view m) →
  v_received (view m') = v_received (view m) →
  received_after event eventResult m' = received_after event eventResult m.
Proof. unfold received_after. simpl. by intros -> ->. Qed.

(** What a post-send notification does to the manager. *)
Lemma handleEventComplete_view clk event eventResult m :
  view (handleEventComplete clk event eventResult m)
  = let v := view m in
    let startTime := startTime_of event m in
    let ok := isSuccess eventResult in
    {| v_config := v_config v; v_broker := v_broker v;
       v_events :=
         map (λ e, if decide (ed_id e = ev_id event)
                   then completion ok eventResult
                          ((λ t, (date_now' clk - t)%Z) <$> startTime) e
                   else e)
             (if known event m then v_events v
              else slice_last (maxEventHistory (v_config v))
                              (v_events v ++ [eventDetails clk event]));
       v_total := v_total v + (if known event m then 0 else 1);
       v_acks := v_acks v + (if ok then 1 else 0);
       v_nacks := v_nacks v + (if ok then 0 else 1);
       v_latencies :=
         match startTime with
         | Some t => push_latency (date_now clk - t) (v_latencies v)
         | None => v_latencies v
         end;
       v_timers :=
         match startTime with
         | Some _ => delete (ev_id event) (v_timers v)
         | None => v_timers v
         end;
       v_received := received_after event eventResult m |}.
Proof.
  unfold handleEventComplete. cbv zeta.
  pose proof (catchUp_view clk event m) as H1.
  set (m1 := catchUp clk event m) in *. clearbody m1.
  assert (Hst : startTime_of event m1 = startTime_of event m)
    by (apply startTime_of_view; by rewrite H1).
  rewrite Hst.
  pose proof (recordLatency_view clk event (startTime_of event m) m1) as H2.
  set (m2 := recordLatency clk event _ m1) in *. clearbody m2.
  pose proof (countReceived_view event eventResult m2) as H3.
  assert (Hrec : received_after event eventResult m2
                 = received_after event eventResult m)
    by (apply received_after_view; by rewrite H2, H1).
  rewrite Hrec in H3.
  set (m3 := countReceived event eventResult m2) in *. clearbody m3.
  pose proof (recordOutcome_view event (isSuccess eventResult) m3) as H4.
  set (m4 := recordOutcome event _ m3) in *. clearbody m4.
  rewrite updateEvent_view, H4, H3, H2, H1. reflexivity.
Qed.

Lemma handleEventStart_view clk event m :
  view (handleEventStart clk event m)
  = let v := view m in
    {| v_config := v_config v; v_broker := v_broker v;
       v_events := slice_last (maxEventHistory (v_config v))
                              (v_events v ++ [eventDetails clk event]);
       v_total := v_total v + 1;
       v_acks := v_acks v; v_nacks := v_nacks v;
       v_latencies := v_latencies v;
       v_timers := <[ev_id event := date_now clk]> (v_timers v);
       v_received := v_received v |}.
Proof.
  unfold handleEventStart, view. rewrite addEvent_events. unfold countEvent.
  destruct (truthy (ev_source event)); simpl; f_equal.
  all: lia.
Qed.

(** ** What one step does *)

Arguments handleEventStart : simpl never.
Arguments handleEventComplete : simpl never.
Arguments attachTo : simpl never.
Arguments detach : simpl never.

Lemma attachTo_manager b t clk m :
  (attachTo b t clk m).1.1
  = updateInternalState clk (with_interval (Some t) (with_broker (Some b) m)).
Proof. unfold attachTo. by destruct (useOnSubscribeHandler b) as [[|[]]|]. Qed.

Lemma detach_manager cleanupFunctions m :
  (detach cleanupFunctions m).1 = cleanup (with_interval None m).
Proof.
  unfold detach, stopPeriodicUpdates.
  destruct (updateInterval m) eqn:Ht; [done|]. simpl.
  destruct m; simpl in *. by subst.
Qed.

(** The configuration is fixed when the manager is built. *)
Lemma step_config m a : config (step m a) = config m.
Proof.
  destruct a; simpl; try done.
  - by rewrite attachTo_manager.
  - by rewrite detach_manager.
  - change (v_config (view (handleEventComplete clk event eventResult m))
            = config m).
    by rewrite handleEventComplete_view.
  - by destruct (broker m).
Qed.

Lemma run_config m tr : config (run m tr) = config m.
Proof.
  revert m. induction tr as [|a tr IH]; intros m; [done|].
  simpl. by rewrite IH, step_config.
Qed.

Lemma run_app m tr tr' : run m (tr ++ tr') = run (run m tr) tr'.
Proof. apply foldl_app. Qed.

Lemma run_snoc m tr a : run m (tr ++ [a]) = step (run m tr) a.
Proof. by rewrite run_app. Qed.

(** The records a step appends to the history. *)
Definition new_records (m : DevToolsManager) (a : Action) : list EventDetails :=
  match a with
  | PreSend clk event => [eventDetails clk event]
  | PostSend clk event _ => if known event m then [] else [eventDetails clk event]
  | _ => []
  end.

(** The update a step applies to the records of the history. *)
Definition record_update (m : DevToolsManager) (a : Action) (e : EventDetails)
    : EventDetails :=
  match a with
  | PostSend clk event eventResult =>
    if decide (ed_id e = ev_id event)
    then completion (isSuccess eventResult) eventResult
           ((λ t, (date_now' clk - t)%Z) <$> startTime_of event m) e
    else e
  | _ => e
  end.

(** Everything but [clearEvents] keeps the records of the history. *)
Definition keeps_history (a : Action) : bool :=
  match a with ClearEvents => false | _ => true end.

(** Whether a step is a post-send notification. *)
Definition is_completion (a : Action) : bool :=
  match a with PostSend _ _ _ => true | _ => false end.

(** The latency sample a step appends to the buffer, if any. *)
Definition sample_of (m : DevToolsManager) (a : Action) : option Z :=
  match a with
  | PostSend clk event _ => (λ t, (date_now clk - t)%Z) <$> startTime_of event m
  | _ => None
  end.

Lemma view_events m : events (state m) = v_events (view m).
Proof. done. Qed.


Lemma view_acks m : total (acks (internalMetrics m)) = v_acks (view m).
Proof. done. Qed.

Lemma view_nacks m : total (nacks (internalMetrics m)) = v_nacks (view m).
Proof. done. Qed.

Lemma view_latencies m : latencies (internalMetrics m) = v_latencies (view m).
Proof. done. Qed.

Lemma view_received m : clientEventsReceived (internalMetrics m) = v_received (view m).
Proof. done. Qed.

Lemma step_events m a :
  events (state (step m a))
  = if keeps_history a
    then record_update m a
           <$> match new_records m a with
               | [] => events (state m)
               | news => slice_last (maxEventHistory (config m))
                                    (events (state m) ++ news)
               end
    else [].
Proof.
  destruct a; cbn [step keeps_history new_records record_update is_completion sample_of length]; rewrite ?list_fmap_id; try done.
  - by rewrite attachTo_manager.
  - by rewrite detach_manager.
  - by rewrite (view_events (handleEventStart _ _ _)), handleEventStart_view.
  - rewrite (view_events (handleEventComplete _ _ _ _)), handleEventComplete_view. simpl. by destruct (known event m).
  - by destruct (broker m).
Qed.


Lemma step_deliveries m a :
  total (acks (internalMetrics (step m a))) + total (nacks (internalMetrics (step m a)))
  = total (acks (internalMetrics m)) + total (nacks (internalMetrics m))
    + (if is_completion a then 1 else 0).
Proof.
  destruct a; cbn [step keeps_history new_records record_update is_completion sample_of length]; rewrite ?Nat.add_0_r; try done.
  - by rewrite attachTo_manager.
  - by rewrite detach_manager.
  - by rewrite (view_acks (handleEventStart _ _ _)),
      (view_nacks (handleEventStart _ _ _)), handleEventStart_view.
  - rewrite (view_acks (handleEventComplete _ _ _ _)),
      (view_nacks (handleEventComplete _ _ _ _)), handleEventComplete_view. simpl. destruct (isSuccess eventResult); lia.
  - by destruct (broker m).
Qed.

Lemma step_latencies m a :
  latencies (internalMetrics (step m a))
  = match sample_of m a with
    | Some latency => push_latency latency (latencies (internalMetrics m))
    | None => latencies (internalMetrics m)
    end.
Proof.
  destruct a; cbn [step keeps_history new_records record_update is_completion sample_of length]; try done.
  - by rewrite attachTo_manager.
  - by rewrite detach_manager.
  - by rewrite (view_latencies (handleEventStart _ _ _)), handleEventStart_view.
  - rewrite (view_latencies (handleEventComplete _ _ _ _)), handleEventComplete_view.
    cbn [v_latencies]. destruct (startTime_of event m) as [t|];
      cbn [fmap option_fmap option_map view v_latencies]; reflexivity.
  - by destruct (broker m).
Qed.

(** ** Sample data for the statements below *)

Definition ack : EventResult := mkResult "ACK".
Definition nack : EventResult := mkResult "NACK".

(** The scenario of the panel's documentation: [A] broadcasts [ping], to
    which [B] is subscribed. *)
Definition ping : Event := mkEvent "e1" "ping" (Some "A") (Some "*").

(** The same event without a recipient field. *)
Definition ping_no_recipient : Event := mkEvent "e2" "ping" (Some "A") None.

(** ** The received counters after a post-send notification *)

(** The loop of [handleBroadcastEventComplete], client by client. *)
Lemma broadcast_count event (received : gmap string nat)
    (subscriptions : gmap string (list string)) c :
  count c
    (map_fold (λ clientId eventTypes received,
                 if decide (Some clientId = ev_source event) then received
                 else if decide (ev_type event ∈ eventTypes)
                      then incr clientId received
                      else received)
              received subscriptions)
  = match subscriptions !! c with
    | Some eventTypes =>
      if decide (Some c = ev_source event) then count c received
      else if decide (ev_type event ∈ eventTypes) then count c received + 1
           else count c received
    | None => count c received
    end.
Proof.
  revert c.
  apply (map_fold_weak_ind (λ r (s : gmap string (list string)), ∀ c,
    count c r = match s !! c with
                | Some eventTypes =>
                  if decide (Some c = ev_source event) then count c received
                  else if decide (ev_type event ∈ eventTypes)
                       then count c received + 1
                       else count c received
                | None => count c received
                end)).
  - intros c. by rewrite lookup_empty.
  - intros i x s r Hfresh IH c.
    destruct (decide (i = c)) as [->|Hne].
    + rewrite lookup_insert_eq. specialize (IH c). rewrite Hfresh in IH.
      repeat case_decide; try done.
      by rewrite count_incr_eq, IH.
    + rewrite lookup_insert_ne by done. rewrite <- IH.
      repeat case_decide; try done.
      by apply count_incr_ne.
Qed.

Lemma handleEventComplete_received clk event eventResult m :
  clientEventsReceived (internalMetrics (handleEventComplete clk event eventResult m))
  = received_after event eventResult m.
Proof. by rewrite view_received, handleEventComplete_view. Qed.

(** A client is subscribed to an event type when the broker's live
    subscription table lists the type under the client's id. *)
Definition subscribed (m : DevToolsManager) (clientId eventType : string) : Prop :=
  ∃ b subscriptions eventTypes,
    broker m = Some b ∧
    getSubscriptions b = Returns (Some subscriptions) ∧
    subscriptions !! clientId = Some eventTypes ∧
    eventType ∈ eventTypes.

(** C2. A post-send notification with status ACK for a broadcast event
    (recipient [*]) adds exactly 1 to the received counter of every client
    subscribed to the event's type other than the sender, and leaves the
    counter of every other client alone; a post-send notification whose
    status is not ACK changes no received counter. *)
Theorem broadcast_received_counters clk event eventResult m :
  let m' := handleEventComplete clk event eventResult m in
  (res_status <$> eventResult = Some "ACK" → ev_recipient event = Some "*" →
     (∀ c, subscribed m c (ev_type event) → ev_source event ≠ Some c →
        countEventsReceivedByClient c m' = countEventsReceivedByClient c m + 1) ∧
     (∀ c, ¬ subscribed m c (ev_type event) ∨ ev_source event = Some c →
        countEventsReceivedByClient c m' = countEventsReceivedByClient c m)) ∧
  (res_status <$> eventResult ≠ Some "ACK" →
     clientEventsReceived (internalMetrics m')
     = clientEventsReceived (internalMetrics m)).
Proof.
  intros m'. subst m'. unfold countEventsReceivedByClient.
  rewrite handleEventComplete_received. unfold received_after. cbn zeta. split.
  - intros Hack%isSuccess_true Hstar.
    rewrite Hack, decide_True by done. split.
    + intros c (b & subs & tys & -> & -> & Hc & Hty) Hsrc.
      rewrite broadcast_count, Hc.
      rewrite decide_False by congruence. by rewrite decide_True.
    + intros c Hc.
      destruct (broker m) as [b|] eqn:Hb; [|done].
      destruct (getSubscriptions b) as [|[subs|]] eqn:Hsubs; [done| |done].
      rewrite broadcast_count.
      destruct (subs !! c) as [tys|] eqn:Htys; [|done].
      repeat case_decide; try done.
      destruct Hc as [Hc|Hc]; [|congruence].
      destruct Hc. by exists b, subs, tys.
  - intros Hnack%isSuccess_false. by rewrite Hnack.
Qed.

Lemma broadcast_received_counters_witness :
  subscribed manager0 "B" "ping" ∧
  countEventsReceivedByClient "B" (handleEventComplete clock1 ping (Some ack) manager0)
  = countEventsReceivedByClient "B" manager0 + 1.
Proof.
  assert (Hsub : subscribed manager0 "B" "ping").
  { exists broker0, {[ "A" := ["pong"]; "B" := ["ping"] ]}, ["ping"].
    split; [reflexivity|]. split; [reflexivity|].
    split; [reflexivity|apply list_elem_of_here]. }
  split; [exact Hsub|].
  apply (proj1 (proj1 (broadcast_received_counters clock1 ping (Some ack) manager0)
                  eq_refl eq_refl)); [exact Hsub|discriminate].
Defined.

(** ** An event without a recipient field *)

(** C10. A post-send notification with status ACK for an event that has no
    [mfe-recipient] field increments no received counter, although the record
    either handler creates for the event shows the recipient [*]. *)
Theorem missing_recipient_not_counted clk event eventResult m :
  ev_recipient event = None →
  res_status <$> eventResult = Some "ACK" →
  let m' := handleEventComplete clk event eventResult m in
  clientEventsReceived (internalMetrics m') = clientEventsReceived (internalMetrics m) ∧
  (∀ clk0 m0, 0 < maxEventHistory (config m0) →
     ∃ r, last (events (state (handleEventStart clk0 event m0))) = Some r ∧
          ed_id r = ev_id event ∧ ed_recipient r = "*" ∧ ed_status r = pending) ∧
  (find (λ e, bool_decide (ed_id e = ev_id event)) (events (state m)) = None →
   0 < maxEventHistory (config m) →
     ∃ r, last (events (state m')) = Some r ∧
          ed_id r = ev_id event ∧ ed_recipient r = "*" ∧ ed_status r = delivered).
Proof.
  intros Hrec Hack%isSuccess_true m'. subst m'.
  split; [|split].
  - rewrite handleEventComplete_received. unfold received_after. cbn zeta.
    rewrite Hack, Hrec. by rewrite decide_False.
  - intros clk0 m0 Hmax. exists (eventDetails clk0 event).
    rewrite view_events, handleEventStart_view. cbn [v_events].
    rewrite slice_last_snoc by done.
    unfold eventDetails, or_else. simpl. by rewrite Hrec.
  - intros Hfind Hmax.
    rewrite view_events, handleEventComplete_view. cbn [v_events].
    assert (known event m = false) as ->.
    { apply bool_decide_eq_false_2. rewrite <- find_id, Hfind. by intros [? ?]. }
    rewrite fmap_last, slice_last_snoc by done. simpl.
    rewrite decide_True by done. eexists; split; [done|].
    rewrite Hack. simpl. unfold or_else. by rewrite Hrec.
Qed.

Lemma missing_recipient_not_counted_witness :
  ev_recipient ping_no_recipient = None ∧
  clientEventsReceived
    (internalMetrics (handleEventComplete clock1 ping_no_recipient (Some ack) manager0))
  = clientEventsReceived (internalMetrics manager0).
Proof.
  split; [reflexivity|].
  exact (proj1 (missing_recipient_not_counted clock1 ping_no_recipient (Some ack)
                  manager0 eq_refl eq_refl)).
Defined.

(** ** Clearing the history *)

(** C6. [clearEvents] replaces the history by the empty list and changes
    nothing else of the manager: the sent and received counters, the ACK and
    NACK tallies, the latency samples and every other field stay as they
    were. *)
Theorem clearEvents_only_history m :
  let m' := clearEvents m in
  events (state m') = [] ∧
  clientEventsSent (internalMetrics m') = clientEventsSent (internalMetrics m) ∧
  clientEventsReceived (internalMetrics m') = clientEventsReceived (internalMetrics m) ∧
  acks (internalMetrics m') = acks (internalMetrics m) ∧
  nacks (internalMetrics m') = nacks (internalMetrics m) ∧
  latencies (internalMetrics m') = latencies (internalMetrics m) ∧
  internalMetrics m' = internalMetrics m ∧
  state m' = with_events [] (state m) ∧
  (broker m', config m', listeners m', updateInterval m')
  = (broker m, config m, listeners m, updateInterval m).
Proof. by repeat split. Qed.

(** ** Detaching *)

(** Every timer call of [calls] comes before every hook unregistration. *)
Definition timer_before_hooks (calls : list Call) : Prop :=
  ∀ i j t h,
    calls !! i = Some (ClearInterval t) → calls !! j = Some (Unhook h) → i < j.

(** Every hook unregistration of [calls] comes before every timer call. *)
Definition hooks_before_timer (calls : list Call) : Prop :=
  ∀ i j t h,
    calls !! i = Some (Unhook h) → calls !! j = Some (ClearInterval t) → i < j.

(** C7, as stated, fails: the function [attachTo] returns unregisters the
    three hooks first and clears the timer last. *)
Lemma detach_unhooks_first :
  let '(m, cleanupFunctions, _) :=
    attachTo broker0 1%positive clock0 (constructor default_config clock0 None) in
  (detach cleanupFunctions m).2
  = [Unhook OnSubscribe; Unhook BeforeSend; Unhook AfterSend; ClearInterval 1%positive]
  ∧ ¬ timer_before_hooks (detach cleanupFunctions m).2.
Proof.
  simpl. split; [reflexivity|].
  intros H. specialize (H 3 0 1%positive OnSubscribe eq_refl eq_refl). lia.
Qed.

Lemma cleanup_idemp m : cleanup (cleanup m) = cleanup m.
Proof. done. Qed.

(** C7, amended. The function [attachTo] returns first calls the unregister
    functions of the hooks, in the order the hooks were registered, and then
    clears the timer if one is running.  After it the manager has no timer and
    no listener, and a second call leaves the manager as the first call left
    it: it clears no timer, and only calls the broker's unregister functions
    once more. *)
Theorem detach_order_idempotent cleanupFunctions m :
  let m1 := (detach cleanupFunctions m).1 in
  let calls1 := (detach cleanupFunctions m).2 in
  let m2 := (detach cleanupFunctions m1).1 in
  let calls2 := (detach cleanupFunctions m1).2 in
  calls1 = map Unhook cleanupFunctions
           ++ match updateInterval m with Some t => [ClearInterval t] | None => [] end ∧
  hooks_before_timer calls1 ∧
  updateInterval m1 = None ∧ listeners m1 = ∅ ∧
  m2 = m1 ∧
  calls2 = map Unhook cleanupFunctions.
Proof.
  unfold detach, stopPeriodicUpdates.
  destruct (updateInterval m) as [t|] eqn:Ht; simpl.
  - repeat split; try done.
    + intros i j t' h Hi Hj.
      destruct (decide (i < length (map Unhook cleanupFunctions))) as [Hlt|Hge];
        [|rewrite lookup_app_r in Hi by lia;
          by destruct (i - length (map Unhook cleanupFunctions)) as [|[|?]]].
      destruct (decide (j < length (map Unhook cleanupFunctions))) as [Hlt'|Hge'];
        [|lia].
      rewrite lookup_app_l in Hj by done.
      rewrite list_lookup_fmap in Hj. by destruct (cleanupFunctions !! j).
    + by rewrite app_nil_r.
  - rewrite Ht. simpl. rewrite app_nil_r. repeat split; try done.
    intros i j t' h Hi Hj.
    rewrite list_lookup_fmap in Hj. by destruct (cleanupFunctions !! j).
Qed.

(** ** Test messages *)

(** C9, as stated, fails: with an attached broker and the empty string as
    recipient (which is neither absent nor [*]) the broadcast command is the
    one invoked. *)
Lemma sendTestMessage_empty_recipient :
  let options := Some {| opt_recipient := Some ""; opt_source := None |} in
  (sendTestMessage "x" "{}" options manager0).1 = [Broadcast "x" "devtools" "{}"] ∧
  options ≫= opt_recipient ≠ None ∧
  options ≫= opt_recipient ≠ Some "*".
Proof. by repeat split. Qed.

(** C9, amended. With a broker attached, [sendTestMessage] makes exactly one
    call: the broker's broadcast command when the recipient is absent, empty
    or [*], and otherwise the unicast command with the recipient supplied.
    Without a broker it makes no call. *)
Theorem sendTestMessage_dispatch eventType data options m :
  let recipient := options ≫= opt_recipient in
  let sender := or_else (options ≫= opt_source) "devtools" in
  let calls := (sendTestMessage eventType data options m).1 in
  match broker m with
  | None => calls = []
  | Some _ =>
    (calls = [Broadcast eventType sender data] ↔
       recipient = None ∨ recipient = Some "" ∨ recipient = Some "*") ∧
    (∀ r, recipient = Some r → r ≠ "" → r ≠ "*" →
       calls = [SendTo eventType sender r data])
  end.
Proof.
  unfold sendTestMessage. destruct (broker m) as [b|]; [|done]. simpl.
  destruct (truthy (options ≫= opt_recipient)) as [r|] eqn:Hr.
  - apply truthy_Some in Hr as [Hr Hne]. rewrite Hr. case_decide.
    + split; [naive_solver|]. intros r' [= <-] _ _. done.
    + split; [naive_solver|]. intros r' [= <-] _ ?. naive_solver.
  - apply truthy_None in Hr. split; [naive_solver|].
    intros r' Hr' ? ?. naive_solver.
Qed.

(** ** The bounded history *)

Lemma constructor_view cfg clk saved :
  view (constructor cfg clk saved)
  = {| v_config := cfg; v_broker := None; v_events := []; v_total := 0;
       v_acks := 0; v_nacks := 0; v_latencies := []; v_timers := ∅;
       v_received := ∅ |}.
Proof.
  unfold constructor, loadPersistedState. simpl.
  by destruct (enablePersistence cfg), saved.
Qed.

Lemma step_history_bound m a :
  length (events (state m)) ≤ maxEventHistory (config m) →
  length (events (state (step m a))) ≤ maxEventHistory (config m).
Proof.
  intros Hlen. rewrite step_events.
  destruct (keeps_history a); [|simpl; lia].
  rewrite length_fmap. destruct (new_records m a); [done|].
  rewrite slice_last_length. lia.
Qed.

Lemma run_history_bound m tr :
  length (events (state m)) ≤ maxEventHistory (config m) →
  length (events (state (run m tr))) ≤ maxEventHistory (config m).
Proof.
  revert m. induction tr as [|a tr IH]; intros m Hlen; [done|].
  simpl. rewrite <- (step_config m a). apply IH.
  rewrite step_config. by apply step_history_bound.
Qed.

(** The history after a series of pre-send notifications: the last
    [maxEventHistory] records, oldest first. *)
Lemma run_pushes m (pushes : list (Clock * Event)) :
  length (events (state m)) ≤ maxEventHistory (config m) →
  events (state (run m (uncurry PreSend <$> pushes)))
  = slice_last (maxEventHistory (config m))
               (events (state m) ++ (uncurry eventDetails <$> pushes)).
Proof.
  intros Hlen. induction pushes as [|[clk event] pushes IH] using rev_ind.
  - simpl. by rewrite app_nil_r, slice_last_all.
  - rewrite !fmap_app.
    change (uncurry PreSend <$> [(clk, event)]) with [PreSend clk event].
    change (uncurry eventDetails <$> [(clk, event)]) with [eventDetails clk event].
    rewrite run_snoc. cbn [step].
    rewrite view_events, handleEventStart_view. cbn [v_events v_config view].
    rewrite run_config, IH, slice_last_app. by rewrite app_assoc.
Qed.

(** The [i]-th event of a numbered series (the first is event 0). *)
Definition numbered (i : nat) : Event := mkEvent (pretty i) "x" None None.

Lemma numbered_pushes clk (l : list nat) :
  (λ i, PreSend clk (numbered i)) <$> l
  = uncurry PreSend <$> ((λ i, (clk, numbered i)) <$> l).
Proof. by rewrite <- list_fmap_compose. Qed.

(** C3, as stated, fails on the indices: after 1500 events, numbered from 0,
    the history holds events 500 to 1499, not 501 to 1500. *)
Lemma history_scenario_indices :
  let m := run manager0 ((λ i, PreSend clock0 (numbered i)) <$> seq 0 1500) in
  length (events (state m)) = 1000 ∧
  ed_id <$> events (state m) = pretty <$> seq 500 1000 ∧
  ed_id <$> events (state m) ≠ pretty <$> seq 501 1000.
Proof.
  cbv zeta.
  assert (Hrun : events (state (run manager0
                    ((λ i, PreSend clock0 (numbered i)) <$> seq 0 1500)))
                 = eventDetails clock0 ∘ numbered <$> seq 500 1000).
  { rewrite numbered_pushes, run_pushes by (vm_compute; lia). by vm_compute. }
  rewrite Hrun. split; [by vm_compute|]. split; [by vm_compute|].
  intros Heq. apply (f_equal head) in Heq. vm_compute in Heq. discriminate.
Qed.

(** C3, amended. The history never holds more than [maxEventHistory]
    records (1000 unless configured otherwise); [addEvent] appends the record
    and then drops records from the front, oldest first, until the bound
    holds; and 1500 events pushed into an empty history bounded by 1000 leave
    exactly the last 1000 of them in insertion order: counted from 0, events
    500 to 1499. *)
Theorem history_bounded_fifo cfg clk saved :
  let m0 := constructor cfg clk saved in
  maxEventHistory default_config = 1000 ∧
  (∀ tr, length (events (state (run m0 tr))) ≤ maxEventHistory cfg) ∧
  (∀ m event,
     events (state (addEvent event m))
     = slice_last (maxEventHistory (config m)) (events (state m) ++ [event])) ∧
  (∀ pushes : list (Clock * Event),
     maxEventHistory cfg = 1000 → length pushes = 1500 →
     let m := run m0 (uncurry PreSend <$> pushes) in
     events (state m) = uncurry eventDetails <$> drop 500 pushes ∧
     length (events (state m)) = 1000).
Proof.
  intros m0.
  assert (Hv : view m0 = _) by apply constructor_view.
  assert (Hcfg : config m0 = cfg) by apply (f_equal v_config Hv).
  assert (Hev : events (state m0) = []) by apply (f_equal v_events Hv).
  split; [done|]. split; [|split].
  - intros tr. pose proof (run_history_bound m0 tr) as H.
    rewrite Hcfg, Hev in H. apply H. simpl. lia.
  - intros. apply addEvent_events.
  - intros pushes Hmax Hlen m. subst m.
    rewrite run_pushes by (rewrite Hev; simpl; lia).
    rewrite Hev, Hcfg, Hmax. simpl.
    unfold slice_last. rewrite length_fmap, Hlen.
    replace (1500 - 1000) with 500 by (by vm_compute).
    rewrite <- fmap_drop. split; [done|].
    rewrite length_fmap, length_drop, Hlen. by vm_compute.
Qed.

Lemma history_bounded_fifo_witness :
  let m := run (constructor default_config clock0 None)
               (uncurry PreSend <$> ((λ i, (clock0, numbered i)) <$> seq 0 1500)) in
  length (events (state m)) = 1000.
Proof.
  exact (proj2 (proj2 (proj2 (proj2 (history_bounded_fifo default_config clock0 None)))
                  ((λ i, (clock0, numbered i)) <$> seq 0 1500) eq_refl eq_refl)).
Defined.

(** ** The latency buffer *)

Lemma push_latency_length latency l :
  length l ≤ 1000 → length (push_latency latency l) ≤ 1000.
Proof.
  intros Hlen. unfold push_latency. cbv zeta. case_decide.
  - rewrite slice_last_length. lia.
  - lia.
Qed.

Lemma push_latency_suffix latency l : push_latency latency l `suffix_of` l ++ [latency].
Proof. unfold push_latency. cbv zeta. case_decide; [apply suffix_drop|done]. Qed.

(** The samples a run appends to the buffer, in order. *)
Fixpoint samples (m : DevToolsManager) (tr : list Action) : list Z :=
  match tr with
  | [] => []
  | a :: tr =>
    match sample_of m a with Some latency => [latency] | None => [] end
    ++ samples (step m a) tr
  end.

Lemma run_latencies m tr :
  length (latencies (internalMetrics m)) ≤ 1000 →
  length (latencies (internalMetrics (run m tr))) ≤ 1000 ∧
  latencies (internalMetrics (run m tr))
    `suffix_of` latencies (internalMetrics m) ++ samples m tr.
Proof.
  revert m. induction tr as [|a tr IH]; intros m Hlen.
  - simpl. by rewrite app_nil_r.
  - cbn [run foldl samples]. fold (run (step m a) tr).
    assert (Hstep : length (latencies (internalMetrics (step m a))) ≤ 1000 ∧
              latencies (internalMetrics (step m a))
                `suffix_of` latencies (internalMetrics m)
                            ++ match sample_of m a with
                               | Some latency => [latency]
                               | None => []
                               end).
    { rewrite step_latencies. destruct (sample_of m a) as [x|].
      - split; [by apply push_latency_length|apply push_latency_suffix].
      - by rewrite app_nil_r. }
    destruct Hstep as [Hlen' Hsuf]. destruct (IH _ Hlen') as [IH1 IH2].
    split; [done|]. etrans; [exact IH2|].
    rewrite app_assoc. by apply suffix_app.
Qed.

(** C8. The latency buffer never holds more than 1000 samples.  A sample
    that would make it longer leaves the last 500 of the samples appended so
    far, the new one included; otherwise the sample is appended.  At every
    moment the buffer is the most recent part of the sequence of all samples
    appended since the manager was built. *)
Theorem latency_buffer_bounded cfg clk saved tr :
  let m0 := constructor cfg clk saved in
  let m := run m0 tr in
  let buffer := latencies (internalMetrics m) in
  length buffer ≤ 1000 ∧
  buffer `suffix_of` samples m0 tr ∧
  ∀ a latency, sample_of m a = Some latency →
    let buffer' := latencies (internalMetrics (step m a)) in
    (1000 < length (buffer ++ [latency]) →
       buffer' = slice_last 500 (buffer ++ [latency]) ∧ length buffer' = 500) ∧
    (length (buffer ++ [latency]) ≤ 1000 → buffer' = buffer ++ [latency]).
Proof.
  intros m0 m buffer.
  assert (Hl0 : latencies (internalMetrics m0) = [])
    by apply (f_equal v_latencies (constructor_view cfg clk saved)).
  destruct (run_latencies m0 tr) as [Hlen Hsuf]; [rewrite Hl0; simpl; lia|].
  rewrite Hl0 in Hsuf. split; [done|]. split; [done|].
  intros a latency Ha buffer'. subst buffer' buffer.
  rewrite step_latencies, Ha. unfold push_latency. cbv zeta. split.
  - intros Hover. rewrite decide_True by done. split; [done|].
    rewrite slice_last_length. lia.
  - intros Hfit. by rewrite decide_False by lia.
Qed.

(** ** Delivery statistics *)

Lemma run_deliveries m tr :
  total (acks (internalMetrics (run m tr))) + total (nacks (internalMetrics (run m tr)))
  = total (acks (internalMetrics m)) + total (nacks (internalMetrics m))
    + length (completed tr).
Proof.
  revert m. induction tr as [|a tr IH]; intros m; [simpl; lia|].
  cbn [run foldl]. fold (run (step m a) tr). rewrite IH, step_deliveries.
  destruct a; simpl; lia.
Qed.

(** A ratio of two counters, the first at most the second, is a rate. *)
Lemma ratio_bounds (a n : nat) :
  a ≤ n → 0 < n →
  (0 <= inject_Z (Z.of_nat a) / inject_Z (Z.of_nat n) <= 1)%Q.
Proof.
  intros Hle Hpos.
  assert (Hn : (0 < inject_Z (Z.of_nat n))%Q).
  { change 0%Q with (inject_Z 0). rewrite <- Zlt_Qlt. lia. }
  split.
  - apply Qle_shift_div_l; [done|]. rewrite Qmult_0_l.
    change 0%Q with (inject_Z 0). rewrite <- Zle_Qle. lia.
  - apply Qle_shift_div_r; [done|]. rewrite Qmult_1_l.
    rewrite <- Zle_Qle. lia.
Qed.

Lemma calculateSuccessRate_bounds m :
  (0 <= calculateSuccessRate m <= 1)%Q.
Proof.
  unfold calculateSuccessRate. cbv zeta. case_decide.
  - apply ratio_bounds; lia.
  - done.
Qed.

Lemma calculateSuccessRate_zero m :
  total (acks (internalMetrics m)) = 0 → total (nacks (internalMetrics m)) = 0 →
  calculateSuccessRate m = 0%Q.
Proof.
  intros Ha Hn. unfold calculateSuccessRate. cbv zeta.
  rewrite Ha, Hn. by rewrite decide_False by lia.
Qed.

(** C5, as stated, fails: a second post-send notification for an event
    counts again.  After an ACK and then a NACK for the one event [e1], the
    two totals add up to 2, while one event has completed and the history
    holds one record, which is not pending. *)
Lemma deliveries_count_notifications :
  let tr := [PostSend clock0 ping (Some ack); PostSend clock1 ping (Some nack)] in
  let m := run manager0 tr in
  total (acks (internalMetrics m)) + total (nacks (internalMetrics m)) = 2 ∧
  length (remove_dups (completed tr)) = 1 ∧
  length (filter (λ e, ed_status e ≠ pending) (events (state m))) = 1.
Proof. by vm_compute. Qed.

(** C5, amended. The ACK total plus the NACK total is the number of
    post-send notifications handled, which is the number of completed events
    when no event id gets a second post-send notification.  The success rate,
    acks over acks plus nacks, lies between 0 and 1 and is 0 when both totals
    are 0; it is the rate of both the delivery statistics and the performance
    metrics of a snapshot. *)
Theorem deliveries_and_success_rate cfg clk saved tr :
  let m := run (constructor cfg clk saved) tr in
  let im := internalMetrics m in
  total (acks im) + total (nacks im) = length (completed tr) ∧
  (NoDup (completed tr) →
     total (acks im) + total (nacks im) = length (remove_dups (completed tr))) ∧
  totalDelivery (buildDeliveryStats m) = total (acks im) + total (nacks im) ∧
  (0 <= calculateSuccessRate m <= 1)%Q ∧
  (total (acks im) = 0 → total (nacks im) = 0 → calculateSuccessRate m = 0%Q) ∧
  ds_successRate (buildDeliveryStats m) = calculateSuccessRate m ∧
  (∀ clk', successRate (buildPerformanceMetrics clk' m) = calculateSuccessRate m).
Proof.
  intros m im.
  assert (Hsum : total (acks im) + total (nacks im) = length (completed tr)).
  { subst im m. rewrite run_deliveries.
    pose proof (constructor_view cfg clk saved) as Hv.
    rewrite view_acks, view_nacks, Hv. done. }
  split; [done|]. split.
  { intros Hnd. by rewrite remove_dups_NoDup. }
  split; [done|]. split; [apply calculateSuccessRate_bounds|].
  split; [apply calculateSuccessRate_zero|]. done.
Qed.

(** ** The total-event counter *)

Lemma record_update_id m a e : ed_id (record_update m a e) = ed_id e.
Proof. destruct a; simpl; try done. by case_decide. Qed.





Lemma observed_cons a tr :
  observed (a :: tr)
  = match action_id a with Some x => x :: observed tr | None => observed tr end.
Proof. unfold observed. simpl. by destruct (action_id a). Qed.

















(** A run with a pre-send and a post-send notification for one event, and
    two post-send notifications for an event that was never started. *)
Definition sample_run : list Action :=
  [Attach broker0 1%positive clock0;
   PreSend clock0 ping;
   PostSend clock1 ping (Some ack);
   PostSend clock1 ping_no_recipient (Some nack);
   PostSend clock1 ping_no_recipient (Some nack)].


(** ** The status of a record *)

(** The result of the last post-send notification of a run for the id [x],
    if the run has one. *)
Definition result_for (x : string) (a : Action) : option (option EventResult) :=
  match a with
  | PostSend _ event eventResult =>
    if decide (ev_id event = x) then Some eventResult else None
  | _ => None
  end.

Definition last_result (x : string) (tr : list Action) : option (option EventResult) :=
  last (omap (result_for x) tr).

(** What becomes of a record of the history of [m] through a run: the
    updates of the steps, one after the other. *)
Fixpoint settle (m : DevToolsManager) (tr : list Action) (r : EventDetails)
    : EventDetails :=
  match tr with
  | [] => r
  | a :: tr => settle (step m a) tr (record_update m a r)
  end.

(** The records a run appends to the history, each as the rest of the run
    leaves it. *)
Fixpoint created (m : DevToolsManager) (tr : list Action) : list EventDetails :=
  match tr with
  | [] => []
  | a :: tr =>
    ((λ r, settle (step m a) tr (record_update m a r)) <$> new_records m a)
    ++ created (step m a) tr
  end.

(** The status a run leaves a record with, given the status it had. *)
Definition status_after (tr : list Action) (r : EventDetails) : EventStatus :=
  match last_result (ed_id r) tr with
  | Some eventResult => if isSuccess eventResult then delivered else failed
  | None => ed_status r
  end.

Lemma slice_last_fmap {A B} (f : A → B) n (l : list A) :
  f <$> slice_last n l = slice_last n (f <$> l).
Proof. unfold slice_last. by rewrite fmap_drop, length_fmap. Qed.

(** One step on a history within its bound. *)
Lemma step_events_bounded m a :
  length (events (state m)) ≤ maxEventHistory (config m) →
  keeps_history a = true →
  events (state (step m a))
  = slice_last (maxEventHistory (config m))
               (record_update m a <$> (events (state m) ++ new_records m a)).
Proof.
  intros Hlen Hkeep. rewrite step_events, Hkeep.
  destruct (new_records m a) as [|e news].
  - rewrite app_nil_r, slice_last_all; [done|]. by rewrite length_fmap.
  - apply slice_last_fmap.
Qed.

Lemma run_events m tr :
  length (events (state m)) ≤ maxEventHistory (config m) →
  forallb keeps_history tr = true →
  events (state (run m tr))
  = slice_last (maxEventHistory (config m))
               ((settle m tr <$> events (state m)) ++ created m tr).
Proof.
  revert m. induction tr as [|a tr IH]; intros m Hlen Hkeep.
  { simpl. rewrite app_nil_r, list_fmap_id. by rewrite slice_last_all. }
  cbn [forallb] in Hkeep. apply andb_true_iff in Hkeep as [Ha Hkeep].
  cbn [run foldl settle created]. fold (run (step m a) tr).
  rewrite IH; [|rewrite step_config; by apply step_history_bound|done].
  rewrite step_config, step_events_bounded by done.
  rewrite slice_last_fmap, slice_last_app.
  by rewrite <- list_fmap_compose, fmap_app, <- app_assoc.
Qed.

Lemma settle_id m tr r : ed_id (settle m tr r) = ed_id r.
Proof.
  revert m r. induction tr as [|a tr IH]; intros m r; [done|].
  simpl. by rewrite IH, record_update_id.
Qed.

Lemma last_result_cons x a tr :
  last_result x (a :: tr)
  = match last_result x tr with
    | Some eventResult => Some eventResult
    | None => result_for x a
    end.
Proof.
  unfold last_result. simpl. destruct (result_for x a) as [y|]; [|by destruct (last _)].
  apply last_cons.
Qed.

Lemma record_update_status m a r :
  ed_status (record_update m a r)
  = match result_for (ed_id r) a with
    | Some eventResult => if isSuccess eventResult then delivered else failed
    | None => ed_status r
    end.
Proof.
  destruct a; simpl; try done.
  destruct (decide (ed_id r = ev_id event)) as [Hid|Hid].
  - by rewrite decide_True.
  - by rewrite decide_False.
Qed.

Lemma settle_status m tr r : ed_status (settle m tr r) = status_after tr r.
Proof.
  revert m r. induction tr as [|a tr IH]; intros m r; [done|].
  unfold status_after in *. cbn [settle].
  rewrite IH, record_update_id, last_result_cons.
  destruct (last_result (ed_id r) tr); [done|]. apply record_update_status.
Qed.

Lemma completed_cons a tr :
  completed (a :: tr) = completed [a] ++ completed tr.
Proof. unfold completed. simpl. by destruct a. Qed.

Lemma last_result_completed x tr : is_Some (last_result x tr) → x ∈ completed tr.
Proof.
  unfold last_result, completed. intros [y Hy].
  apply last_Some_elem_of, list_elem_of_omap in Hy as (a & Ha & Hy).
  apply list_elem_of_omap. exists a. split; [done|].
  destruct a; try done. simpl in Hy. by case_decide; simplify_eq.
Qed.

Lemma created_records m tr r :
  r ∈ created m tr →
  ed_id r ∈ observed tr ∧ (ed_status r ≠ pending → ed_id r ∈ completed tr).
Proof.
  revert m. induction tr as [|a tr IH]; intros m; [by intros ?%elem_of_nil|].
  cbn [created]. rewrite elem_of_app. intros [Hr|Hr].
  - apply list_elem_of_fmap in Hr as (e & -> & He).
    rewrite settle_id, record_update_id, settle_status.
    unfold status_after. rewrite record_update_id.
    rewrite observed_cons, (completed_cons a tr).
    destruct a; try (by apply elem_of_nil in He); simpl in He.
    + apply list_elem_of_singleton in He as ->. split; [apply list_elem_of_here|].
      simpl. destruct (last_result (ev_id event) tr) eqn:Hl; [|done].
      intros _. apply last_result_completed. by rewrite Hl.
    + destruct (known event m); [by apply elem_of_nil in He|].
      apply list_elem_of_singleton in He as ->. split; [apply list_elem_of_here|].
      intros _. apply elem_of_app. left. apply list_elem_of_here.
  - destruct (IH _ Hr) as [Ho Hc]. split.
    + rewrite observed_cons. destruct (action_id a); [by apply list_elem_of_further|done].
    + intros Hs. rewrite (completed_cons a tr). apply elem_of_app. right. by apply Hc.
Qed.

(** C4, as stated, fails: a second post-send notification for an event sets
    the status of its record again.  After an ACK the record of [e1] is
    delivered; a NACK for [e1] then changes it to failed. *)
Lemma status_changes_on_second_completion :
  let m1 := run manager0 [PostSend clock0 ping (Some ack)] in
  let m2 := step m1 (PostSend clock1 ping (Some nack)) in
  (ed_id <$> events (state m1), ed_status <$> events (state m1))
    = (["e1"], [delivered]) ∧
  (ed_id <$> events (state m2), ed_status <$> events (state m2))
    = (["e1"], [failed]).
Proof. by vm_compute. Qed.

(** C4, amended. Through a run that does not clear it, a history within
    its bound becomes: its own records, in their order and each as the run
    leaves it, followed by the records the run appends; less the oldest of
    all these when they exceed the bound.  The run leaves a record its id,
    and its status unless the run has a post-send notification for the id;
    the last such notification decides, with delivered on ACK and failed
    otherwise.  A record the run appends is for an id the run observed, and
    it is not pending only if the run has a post-send notification for that
    id.  Clearing leaves no record.  And after a post-send notification every
    record of its id has the status the notification gives, whatever it had
    before.  So the status of a record never returns to pending, it changes
    only by a post-send notification for its id, and it is set once when the
    id gets one such notification. *)
Theorem status_settles m tr :
  (length (events (state m)) ≤ maxEventHistory (config m) →
   forallb keeps_history tr = true →
   events (state (run m tr))
   = slice_last (maxEventHistory (config m))
                ((settle m tr <$> events (state m)) ++ created m tr)) ∧
  (∀ r, ed_id (settle m tr r) = ed_id r ∧
        ed_status (settle m tr r)
        = match last_result (ed_id r) tr with
          | Some eventResult => if isSuccess eventResult then delivered else failed
          | None => ed_status r
          end) ∧
  (∀ r, r ∈ created m tr →
        ed_id r ∈ observed tr ∧ (ed_status r ≠ pending → ed_id r ∈ completed tr)) ∧
  events (state (step m ClearEvents)) = [] ∧
  (∀ clk event eventResult r,
     r ∈ events (state (handleEventComplete clk event eventResult m)) →
     ed_id r = ev_id event →
     ed_status r = if isSuccess eventResult then delivered else failed).
Proof.
  split; [apply run_events|]. split; [|split; [|split; [done|]]].
  - intros r. split; [apply settle_id|apply settle_status].
  - intros r. apply created_records.
  - intros clk event eventResult r Hr Hid.
    rewrite view_events, handleEventComplete_view in Hr. cbn [v_events] in Hr.
    apply list_elem_of_fmap in Hr as (e & -> & _).
    case_decide as He; [done|]. by rewrite Hid in He.
Qed.

(** * Further properties of the manager *)

(** ** The internal metrics after each handler *)

Lemma catchUp_metrics clk event m :
  internalMetrics (catchUp clk event m)
  = if known event m then internalMetrics m
    else countEvent event (internalMetrics m).
Proof.
  unfold catchUp, known. destruct (find _ _) as [e|] eqn:Hfind.
  - by rewrite bool_decide_eq_true_2 by (apply find_id; eauto).
  - by rewrite bool_decide_eq_false_2
      by (rewrite <- find_id, Hfind; by intros [? ?]).
Qed.

Lemma recordLatency_metrics clk event startTime m :
  internalMetrics (recordLatency clk event startTime m)
  = match startTime with
    | Some t =>
      let im := internalMetrics m in
      set_eventTimers (delete (ev_id event) (eventTimers im))
        (set_latencies (push_latency (date_now clk - t) (latencies im)) im)
    | None => internalMetrics m
    end.
Proof.
  destruct startTime as [t|]; [|reflexivity].
  unfold recordLatency, push_latency. reflexivity.
Qed.

Lemma set_clientEventsReceived_id im :
  set_clientEventsReceived (clientEventsReceived im) im = im.
Proof. by destruct im. Qed.

Lemma countReceived_metrics event eventResult m :
  internalMetrics (countReceived event eventResult m)
  = set_clientEventsReceived (received_after event eventResult m)
                             (internalMetrics m).
Proof.
  unfold countReceived, received_after.
  destruct (isSuccess eventResult) eqn:Hok;
    [|by rewrite set_clientEventsReceived_id].
  apply isSuccess_true in Hok. destruct eventResult as [r|]; [|done].
  injection Hok as Hok. cbn zeta. case_decide.
  - unfold handleBroadcastEventComplete.
    destruct (broker m) as [b|]; [|by rewrite set_clientEventsReceived_id].
    rewrite decide_False by (by intros []).
    destruct (getSubscriptions b) as [|[subs|]];
      by rewrite ?set_clientEventsReceived_id.
  - destruct (truthy (ev_recipient event));
      by rewrite ?set_clientEventsReceived_id.
Qed.

Lemma recordOutcome_metrics event ok m :
  internalMetrics (recordOutcome event ok m)
  = let im := internalMetrics m in
    if ok then set_acks (tally (ev_type event) (acks im)) im
    else set_nacks (tally (ev_type event) (nacks im)) im.
Proof.
  unfold recordOutcome, write_acks, write_nacks. cbv zeta.
  by destruct ok; simpl; destruct (ds_shared _).
Qed.

(** The internal metrics a post-send notification leaves. *)
Definition completeMetrics (clk : Clock) (event : Event)
    (eventResult : option EventResult) (m : DevToolsManager) : InternalMetrics :=
  let im := if known event m then internalMetrics m
            else countEvent event (internalMetrics m) in
  let im :=
    match startTime_of event m with
    | Some t =>
      set_eventTimers (delete (ev_id event) (eventTimers im))
        (set_latencies (push_latency (date_now clk - t) (latencies im)) im)
    | None => im
    end in
  let im := set_clientEventsReceived (received_after event eventResult m) im in
  if isSuccess eventResult then set_acks (tally (ev_type event) (acks im)) im
  else set_nacks (tally (ev_type event) (nacks im)) im.

Lemma handleEventComplete_metrics clk event eventResult m :
  internalMetrics (handleEventComplete clk event eventResult m)
  = completeMetrics clk event eventResult m.
Proof.
  unfold handleEventComplete, completeMetrics. cbv zeta.
  pose proof (catchUp_view clk event m) as H1.
  pose proof (catchUp_metrics clk event m) as M1.
  set (m1 := catchUp clk event m) in *. clearbody m1.
  assert (Hst : startTime_of event m1 = startTime_of event m)
    by (apply startTime_of_view; by rewrite H1).
  rewrite Hst.
  pose proof (recordLatency_view clk event (startTime_of event m) m1) as H2.
  pose proof (recordLatency_metrics clk event (startTime_of event m) m1) as M2.
  set (m2 := recordLatency clk event _ m1) in *. clearbody m2.
  pose proof (countReceived_metrics event eventResult m2) as M3.
  assert (Hrec : received_after event eventResult m2
                 = received_after event eventResult m)
    by (apply received_after_view; by rewrite H2, H1).
  rewrite Hrec in M3.
  set (m3 := countReceived event eventResult m2) in *. clearbody m3.
  pose proof (recordOutcome_metrics event (isSuccess eventResult) m3) as M4.
  set (m4 := recordOutcome event _ m3) in *. clearbody m4.
  change (internalMetrics (updateEvent _ _ m4)) with (internalMetrics m4).
  rewrite M4, M3, M2, M1. cbv zeta. reflexivity.
Qed.

Lemma handleEventStart_metrics clk event m :
  internalMetrics (handleEventStart clk event m)
  = countEvent event
      (set_eventTimers (<[ev_id event := date_now clk]> (eventTimers (internalMetrics m)))
                       (internalMetrics m)).
Proof. reflexivity. Qed.

(** The delivery statistics of the state after the fourth block: tallies
    that are shared show the write, the two numbers stay as they are. *)
Definition shared_stats (ok : bool) (im : InternalMetrics) (ds : DeliveryStats)
    : DeliveryStats :=
  if ds_shared ds
  then {| ds_acks := if ok then acks im else ds_acks ds;
          ds_nacks := if ok then ds_nacks ds else nacks im;
          totalDelivery := totalDelivery ds;
          ds_successRate := ds_successRate ds; ds_shared := true |}
  else ds.

Lemma recordOutcome_state event ok m :
  state (recordOutcome event ok m)
  = with_deliveryStats
      (shared_stats ok (internalMetrics (recordOutcome event ok m))
                    (deliveryStats (state m)))
      (state m) ∧
  listeners (recordOutcome event ok m) = listeners m ∧
  updateInterval (recordOutcome event ok m) = updateInterval m.
Proof.
  unfold recordOutcome, write_acks, write_nacks, shared_stats. cbv zeta.
  destruct m as [b [st es pm ds ic lu] cfg ls ui im].
  destruct ok; simpl; destruct (ds_shared ds) eqn:Hs; simpl; rewrite ?Hs;
    repeat split; try done.
  all: by destruct ds.
Qed.

(** In the state, a post-send notification changes the history and, through
    the shared tallies, the delivery statistics. *)
Lemma handleEventComplete_state clk event eventResult m :
  let m' := handleEventComplete clk event eventResult m in
  state m'
  = with_deliveryStats
      (shared_stats (isSuccess eventResult) (internalMetrics m')
                    (deliveryStats (state m)))
      (with_events (events (state m')) (state m)) ∧
  listeners m' = listeners m ∧
  updateInterval m' = updateInterval m.
Proof.
  unfold handleEventComplete. cbv zeta.
  assert (H1 : ∀ m, state (catchUp clk event m)
                    = with_events (events (state (catchUp clk event m))) (state m) ∧
                    listeners (catchUp clk event m) = listeners m ∧
                    updateInterval (catchUp clk event m) = updateInterval m).
  { intros m'. unfold catchUp. destruct (find _ _); [|done].
    by destruct m' as [? [] ? ? ? ?]. }
  assert (H2 : ∀ st m, state (recordLatency clk event st m) = state m ∧
                       listeners (recordLatency clk event st m) = listeners m ∧
                       updateInterval (recordLatency clk event st m) = updateInterval m).
  { intros st m'. by destruct st. }
  assert (H3 : ∀ m, state (countReceived event eventResult m) = state m ∧
                    listeners (countReceived event eventResult m) = listeners m ∧
                    updateInterval (countReceived event eventResult m) = updateInterval m).
  { intros m'. unfold countReceived, handleBroadcastEventComplete.
    repeat case_match; done. }
  destruct (H1 m) as (S1 & L1 & U1).
  set (m1 := catchUp clk event m) in *. clearbody m1.
  destruct (H2 (startTime_of event m1) m1) as (S2 & L2 & U2).
  set (m2 := recordLatency clk event _ m1) in *. clearbody m2.
  destruct (H3 m2) as (S3 & L3 & U3).
  set (m3 := countReceived event eventResult m2) in *. clearbody m3.
  destruct (recordOutcome_state event (isSuccess eventResult) m3) as (S4 & L4 & U4).
  set (m4 := recordOutcome event _ m3) in *. clearbody m4.
  unfold updateEvent, updateStatePartial. simpl.
  rewrite S4, S3, S2, S1, L4, L3, L2, L1, U4, U3, U2, U1. done.
Qed.

(** The sent counters after an event is counted. *)
Definition sent_after (event : Event) (sent : gmap string nat) : gmap string nat :=
  match truthy (ev_source event) with
  | Some source => incr source sent
  | None => sent
  end.

Lemma countEvent_fields event im :
  im_events (countEvent event im) = tally (ev_type event) (im_events im) ∧
  clientEventsSent (countEvent event im) = sent_after event (clientEventsSent im) ∧
  latencies (countEvent event im) = latencies im ∧
  acks (countEvent event im) = acks im ∧
  nacks (countEvent event im) = nacks im ∧
  startTime (countEvent event im) = startTime im ∧
  eventTimers (countEvent event im) = eventTimers im ∧
  clientEventsReceived (countEvent event im) = clientEventsReceived im ∧
  brokerResponses (countEvent event im) = brokerResponses im.
Proof.
  unfold countEvent, sent_after. by destruct (truthy (ev_source event)).
Qed.

Lemma completeMetrics_sent clk event eventResult m :
  clientEventsSent (completeMetrics clk event eventResult m)
  = if known event m then clientEventsSent (internalMetrics m)
    else sent_after event (clientEventsSent (internalMetrics m)).
Proof.
  unfold completeMetrics. cbv zeta.
  destruct (countEvent_fields event (internalMetrics m)) as (_ & Hs & _).
  destruct (isSuccess eventResult), (startTime_of event m), (known event m);
    cbn [clientEventsSent set_acks set_nacks set_clientEventsReceived
         set_eventTimers set_latencies]; done.
Qed.

Lemma completeMetrics_received clk event eventResult m :
  clientEventsReceived (completeMetrics clk event eventResult m)
  = received_after event eventResult m.
Proof.
  unfold completeMetrics. cbv zeta.
  by destruct (isSuccess eventResult).
Qed.

Lemma completeMetrics_timers clk event eventResult m :
  eventTimers (completeMetrics clk event eventResult m)
  = match startTime_of event m with
    | Some _ => delete (ev_id event) (eventTimers (internalMetrics m))
    | None => eventTimers (internalMetrics m)
    end.
Proof.
  unfold completeMetrics. cbv zeta.
  destruct (countEvent_fields event (internalMetrics m)) as (_ & _ & _ & _ & _ & _ & Ht & _).
  destruct (isSuccess eventResult), (startTime_of event m), (known event m);
    cbn [eventTimers set_acks set_nacks set_clientEventsReceived
         set_eventTimers set_latencies]; by rewrite ?Ht.
Qed.

Lemma completeMetrics_tallies clk event eventResult m :
  let im := internalMetrics m in
  let im' := completeMetrics clk event eventResult m in
  im_events im' = (if known event m then im_events im
                   else tally (ev_type event) (im_events im)) ∧
  acks im' = (if isSuccess eventResult then tally (ev_type event) (acks im)
              else acks im) ∧
  nacks im' = (if isSuccess eventResult then nacks im
               else tally (ev_type event) (nacks im)) ∧
  startTime im' = startTime im ∧
  brokerResponses im' = brokerResponses im.
Proof.
  unfold completeMetrics. cbv zeta.
  destruct (countEvent_fields event (internalMetrics m))
    as (He & _ & _ & Ha & Hn & Hs & _ & _ & Hb).
  destruct (isSuccess eventResult), (startTime_of event m), (known event m);
    cbn [im_events acks nacks startTime brokerResponses total byType
         set_acks set_nacks set_clientEventsReceived
         set_eventTimers set_latencies]; by rewrite ?He, ?Ha, ?Hn, ?Hs, ?Hb.
Qed.

(** The received counter of one client after the third block. *)
Lemma received_after_count event eventResult m c :
  count c (received_after event eventResult m)
  = let n := count c (clientEventsReceived (internalMetrics m)) in
    if isSuccess eventResult then
      if decide (ev_recipient event = Some "*") then
        match broker m with
        | Some b =>
          match getSubscriptions b with
          | Returns (Some subscriptions) =>
            match subscriptions !! c with
            | Some eventTypes =>
              if decide (Some c = ev_source event) then n
              else if decide (ev_type event ∈ eventTypes) then n + 1 else n
            | None => n
            end
          | _ => n
          end
        | None => n
        end
      else
        match truthy (ev_recipient event) with
        | Some recipient => if decide (recipient = c) then n + 1 else n
        | None => n
        end
    else n.
Proof.
  unfold received_after. cbv zeta.
  destruct (isSuccess eventResult); [|done]. case_decide.
  - destruct (broker m) as [b|]; [|done].
    destruct (getSubscriptions b) as [|[subs|]]; [done| |done].
    apply broadcast_count.
  - destruct (truthy (ev_recipient event)) as [r|]; [|done].
    case_decide as Hr; [subst; apply count_incr_eq|by apply count_incr_ne].
Qed.

Lemma received_after_mono event eventResult m c :
  count c (clientEventsReceived (internalMetrics m))
  ≤ count c (received_after event eventResult m).
Proof.
  rewrite received_after_count. cbv zeta. repeat case_match; lia.
Qed.

Lemma sent_after_count event sent c :
  count c (sent_after event sent)
  = if decide (truthy (ev_source event) = Some c) then count c sent + 1
    else count c sent.
Proof.
  unfold sent_after. destruct (truthy (ev_source event)) as [s|].
  - case_decide as Hs.
    + injection Hs as ->. apply count_incr_eq.
    + apply count_incr_ne. congruence.
  - by rewrite decide_False.
Qed.

(** X1. A post-send notification with status ACK for a unicast event (a
    recipient that is neither empty nor [*]) adds 1 to the received counter
    of the recipient and to no other, whatever the broker's subscription
    table says; the sender is not excluded. *)
Theorem unicast_received_counter clk event eventResult m r :
  res_status <$> eventResult = Some "ACK" →
  ev_recipient event = Some r → r ≠ "" → r ≠ "*" →
  let m' := handleEventComplete clk event eventResult m in
  countEventsReceivedByClient r m' = countEventsReceivedByClient r m + 1 ∧
  ∀ c, c ≠ r → countEventsReceivedByClient c m' = countEventsReceivedByClient c m.
Proof.
  intros Hack%isSuccess_true Hrec Hne Hstar m'. subst m'.
  unfold countEventsReceivedByClient.
  rewrite handleEventComplete_metrics, completeMetrics_received.
  assert (Ht : truthy (ev_recipient event) = Some r) by (by apply truthy_Some).
  split; [|intros c Hc]; rewrite received_after_count; cbv zeta;
    rewrite Hack, Ht, decide_False by congruence.
  - by rewrite decide_True.
  - by rewrite decide_False.
Qed.

(** A unicast of [ping] from [A] to [B]. *)
Definition ping_to_B : Event := mkEvent "e3" "ping" (Some "A") (Some "B").

Lemma unicast_received_counter_witness :
  countEventsReceivedByClient "B"
    (handleEventComplete clock1 ping_to_B (Some ack) manager0)
  = countEventsReceivedByClient "B" manager0 + 1.
Proof.
  assert (H1 : "B" ≠ "") by discriminate.
  assert (H2 : "B" ≠ "*") by discriminate.
  pose proof (unicast_received_counter clock1 ping_to_B (Some ack) manager0 "B"
                eq_refl eq_refl H1 H2) as H.
  cbv zeta in H. destruct H as [H _]. exact H.
Defined.

(** ** The sent counters *)

Lemma known_after_start clk event m :
  0 < maxEventHistory (config m) →
  known event (handleEventStart clk event m) = true.
Proof.
  intros Hmax. unfold known. apply bool_decide_eq_true_2.
  rewrite view_events, handleEventStart_view. cbn [v_events v_config view].
  apply list_elem_of_fmap. exists (eventDetails clk event). split; [done|].
  apply last_Some_elem_of. by apply slice_last_snoc.
Qed.

(** X2. An event is charged to its sender once, whichever hooks fire: a
    pre-send notification followed by the post-send notification of the same
    event adds 1 to the sent counter of the (non-empty) source and to no
    other, provided the history can hold a record; a post-send notification
    alone does the same when the history has no record of the event, and
    changes no sent counter when it has one. *)
Theorem sender_counted_once clk clk' event eventResult m s :
  0 < maxEventHistory (config m) →
  ev_source event = Some s → s ≠ "" →
  let sent c m := countEventsSentByClient c m in
  let m' := handleEventComplete clk' event eventResult (handleEventStart clk event m) in
  sent s m' = sent s m + 1 ∧
  (∀ c, c ≠ s → sent c m' = sent c m) ∧
  (ev_id event ∉ ed_id <$> events (state m) →
     sent s (handleEventComplete clk' event eventResult m) = sent s m + 1) ∧
  (ev_id event ∈ ed_id <$> events (state m) →
     clientEventsSent (internalMetrics (handleEventComplete clk' event eventResult m))
     = clientEventsSent (internalMetrics m)).
Proof.
  intros Hmax Hsrc Hne sent m'. subst sent m'.
  assert (Ht : truthy (ev_source event) = Some s) by (by apply truthy_Some).
  unfold countEventsSentByClient.
  rewrite !handleEventComplete_metrics, !completeMetrics_sent.
  rewrite known_after_start, handleEventStart_metrics by done.
  destruct (countEvent_fields event
              (set_eventTimers (<[ev_id event := date_now clk]>
                                  (eventTimers (internalMetrics m)))
                               (internalMetrics m))) as (_ & -> & _).
  cbn [clientEventsSent set_eventTimers].
  split; [|split; [|split]].
  - by rewrite sent_after_count, decide_True.
  - intros c Hc. rewrite sent_after_count, decide_False; [done|congruence].
  - intros Hnew. unfold known. rewrite bool_decide_eq_false_2 by done.
    by rewrite sent_after_count, decide_True.
  - intros Hold. unfold known. by rewrite bool_decide_eq_true_2.
Qed.

Lemma sender_counted_once_witness :
  countEventsSentByClient "A"
    (handleEventComplete clock1 ping (Some ack) (handleEventStart clock0 ping manager0))
  = countEventsSentByClient "A" manager0 + 1.
Proof.
  assert (H0 : 0 < maxEventHistory (config manager0)) by (vm_compute; lia).
  assert (H1 : "A" ≠ "") by discriminate.
  pose proof (sender_counted_once clock0 clock1 ping (Some ack) manager0 "A"
                H0 eq_refl H1) as H.
  cbv zeta in H. destruct H as [H _]. exact H.
Defined.

(** ** Counters only grow *)

Lemma tally_total ty t : total (tally ty t) = total t + 1.
Proof. simpl. lia. Qed.

Lemma step_counters_mono m a c :
  let im := internalMetrics m in
  let im' := internalMetrics (step m a) in
  count c (clientEventsSent im) ≤ count c (clientEventsSent im') ∧
  count c (clientEventsReceived im) ≤ count c (clientEventsReceived im') ∧
  total (im_events im) ≤ total (im_events im') ∧
  total (acks im) ≤ total (acks im') ∧
  total (nacks im) ≤ total (nacks im').
Proof.
  cbv zeta. destruct a; cbn [step]; try done.
  - by rewrite attachTo_manager.
  - by rewrite detach_manager.
  - rewrite handleEventStart_metrics.
    destruct (countEvent_fields event
                (set_eventTimers (<[ev_id event := date_now clk]>
                                    (eventTimers (internalMetrics m)))
                                 (internalMetrics m)))
      as (-> & -> & _ & -> & -> & _ & _ & -> & _).
    cbn [clientEventsSent clientEventsReceived im_events acks nacks set_eventTimers].
    rewrite sent_after_count, tally_total. case_decide; repeat split; lia.
  - rewrite handleEventComplete_metrics, completeMetrics_sent,
      completeMetrics_received.
    destruct (completeMetrics_tallies clk event eventResult m)
      as (-> & -> & -> & _).
    pose proof (received_after_mono event eventResult m c).
    destruct (known event m), (isSuccess eventResult);
      rewrite ?sent_after_count, ?tally_total;
      repeat case_decide; repeat split; lia.
  - by destruct (broker m).
Qed.

(** X3. Through any run, no sent or received counter of a client, nor the
    total-event, ACK or NACK total, ever decreases: clearing the history,
    detaching, attaching again and settings updates reset none of them. *)
Theorem counters_monotone m tr c :
  let im := internalMetrics m in
  let im' := internalMetrics (run m tr) in
  countEventsSentByClient c m ≤ countEventsSentByClient c (run m tr) ∧
  countEventsReceivedByClient c m ≤ countEventsReceivedByClient c (run m tr) ∧
  total (im_events im) ≤ total (im_events im') ∧
  total (acks im) ≤ total (acks im') ∧
  total (nacks im) ≤ total (nacks im').
Proof.
  cbv zeta. unfold countEventsSentByClient, countEventsReceivedByClient.
  revert m. induction tr as [|a tr IH]; intros m; [done|].
  cbn [run foldl]. fold (run (step m a) tr).
  pose proof (step_counters_mono m a c) as Hstep. cbv zeta in Hstep.
  specialize (IH (step m a)). intuition lia.
Qed.

(** ** Per-type tallies *)

(** The number of increments an own property of a [byType] table stands
    for: the number itself, or the digits appended to the string. *)
Definition weight (s : Slot) : nat :=
  match s with Num n => n | Text _ ones => ones end.

(** The increments recorded in a [byType] table. *)
Definition sum_values (o : gmap string Slot) : nat :=
  map_fold (λ _ s acc, weight s + acc) 0 o.

(** An own property of a [byType] table is a positive number under a name
    [Object.prototype] does not have, or a string that began as the text of
    the member of that name; [__proto__] is never an own property. *)
Definition slot_ok (k : string) (s : Slot) : Prop :=
  match s with
  | Num n => 0 < n ∧ k ∉ object_prototype
  | Text member ones =>
    member = k ∧ 0 < ones ∧ k ∈ object_prototype ∧ k ≠ "__proto__"
  end.

(** The event of a notification. *)
Definition event_of (a : Action) : option Event :=
  match a with
  | PreSend _ event | PostSend _ event _ => Some event
  | _ => None
  end.

(** The action is no notification of an event of type [__proto__]. *)
Definition plain_type (a : Action) : Prop :=
  ev_type <$> event_of a ≠ Some "__proto__".

(** What holds of a tally: the table never records more increments than the
    total, it records all of them when [exact], and its own properties are
    as [slot_ok] says. *)
Definition counts_ok (exact : Prop) (t : Tally) : Prop :=
  sum_values (byType t) ≤ total t ∧
  (exact → sum_values (byType t) = total t) ∧
  map_Forall slot_ok (byType t).

Lemma sum_values_insert k x (o : gmap string Slot) :
  o !! k = None → sum_values (<[k:=x]> o) = weight x + sum_values o.
Proof.
  intros Hk. unfold sum_values.
  rewrite (map_fold_insert_L (λ (_ : string) (s : Slot) acc, weight s + acc));
    [done| |done].
  intros. lia.
Qed.

Lemma sum_values_replace k x y (o : gmap string Slot) :
  o !! k = Some x → sum_values (<[k:=y]> o) + weight x = sum_values o + weight y.
Proof.
  intros Hk. rewrite <- (insert_delete_id o k x Hk) at 2.
  rewrite <- insert_delete_eq.
  rewrite !sum_values_insert by apply lookup_delete_eq. lia.
Qed.

Lemma proto_in_prototype : "__proto__" ∈ object_prototype.
Proof. unfold object_prototype. set_solver. Qed.

Lemma sum_values_bump k (o : gmap string Slot) :
  map_Forall slot_ok o →
  sum_values (bump k o)
  = sum_values o + (if decide (k = "__proto__") then 0 else 1).
Proof.
  intros Hok. unfold bump. destruct (o !! k) as [[n|f i]|] eqn:Hk.
  - pose proof (sum_values_replace k (Num n) (Num (n + 1)) o Hk) as H.
    destruct (Hok k _ Hk) as [_ Hk'].
    rewrite decide_False by (intros ->; apply Hk', proto_in_prototype).
    simpl in H. lia.
  - pose proof (sum_values_replace k (Text f i) (Text f (i + 1)) o Hk) as H.
    destruct (Hok k _ Hk) as (_ & _ & _ & Hk').
    rewrite decide_False by done. simpl in H. lia.
  - case_decide; [lia|].
    case_decide; rewrite sum_values_insert by done; simpl; lia.
Qed.

Lemma slot_ok_bump k (o : gmap string Slot) :
  map_Forall slot_ok o → map_Forall slot_ok (bump k o).
Proof.
  intros Hok. unfold bump. destruct (o !! k) as [[n|f i]|] eqn:Hk.
  - apply map_Forall_insert_2; [|done].
    destruct (Hok k _ Hk) as [_ Hk']. split; [lia|done].
  - apply map_Forall_insert_2; [|done].
    destruct (Hok k _ Hk) as (Hf & _ & Hin & Hne). split; [done|]. split; [lia|done].
  - case_decide as Hp; [done|].
    case_decide as Hin; (apply map_Forall_insert_2; [|done]); simpl.
    + split; [done|]. split; [lia|done].
    + split; [lia|done].
Qed.

Lemma counts_ok_tally (exact : Prop) ty t :
  (exact → ty ≠ "__proto__") → counts_ok exact t → counts_ok exact (tally ty t).
Proof.
  intros Hty (Hle & Heq & Hok). unfold counts_ok. simpl.
  rewrite sum_values_bump by done.
  split; [case_decide; lia|]. split; [|by apply slot_ok_bump].
  intros He. rewrite decide_False by auto. rewrite Heq by done. lia.
Qed.

Lemma counts_ok_empty exact : counts_ok exact empty_tally.
Proof.
  unfold counts_ok, sum_values. simpl. rewrite map_fold_empty.
  split; [done|]. split; [done|]. apply map_Forall_empty.
Qed.

Definition tallies_ok (exact : Prop) (m : DevToolsManager) : Prop :=
  counts_ok exact (im_events (internalMetrics m)) ∧
  counts_ok exact (acks (internalMetrics m)) ∧
  counts_ok exact (nacks (internalMetrics m)).

Lemma step_tallies_ok (exact : Prop) m a :
  (exact → plain_type a) → tallies_ok exact m → tallies_ok exact (step m a).
Proof.
  unfold tallies_ok, plain_type. intros Hty (He & Ha & Hn).
  destruct a; cbn [step]; try done.
  - by rewrite attachTo_manager.
  - by rewrite detach_manager.
  - rewrite handleEventStart_metrics.
    destruct (countEvent_fields event
                (set_eventTimers (<[ev_id event := date_now clk]>
                                    (eventTimers (internalMetrics m)))
                                 (internalMetrics m)))
      as (-> & _ & _ & -> & -> & _).
    split; [|done]. apply counts_ok_tally; [|done].
    intros Hx Heq. apply (Hty Hx). simpl. by rewrite Heq.
  - assert (Hty' : exact → ev_type event ≠ "__proto__").
    { intros Hx Heq. apply (Hty Hx). simpl. by rewrite Heq. }
    rewrite handleEventComplete_metrics.
    destruct (completeMetrics_tallies clk event eventResult m)
      as (-> & -> & -> & _).
    destruct (known event m), (isSuccess eventResult);
      (split; [|split]); first [done | by apply counts_ok_tally].
  - by destruct (broker m).
Qed.

Lemma run_tallies_ok (exact : Prop) m tr :
  (exact → Forall plain_type tr) → tallies_ok exact m → tallies_ok exact (run m tr).
Proof.
  revert m. induction tr as [|a tr IH]; intros m Htr Hm; [done|].
  cbn [run foldl]. apply IH.
  - intros Hx. specialize (Htr Hx). by inv Htr.
  - apply step_tallies_ok; [|done].
    intros Hx. specialize (Htr Hx). by inv Htr.
Qed.

Lemma constructor_tallies_ok exact cfg clk saved :
  tallies_ok exact (constructor cfg clk saved).
Proof.
  unfold constructor, loadPersistedState, tallies_ok. simpl.
  destruct (enablePersistence cfg), saved; simpl;
    (split; [|split]); apply counts_ok_empty.
Qed.

(** The three kinds of type name. *)
Lemma tally_by_name :
  tally "ping" empty_tally = {| total := 1; byType := {[ "ping" := Num 1 ]} |} ∧
  tally "constructor" empty_tally
  = {| total := 1; byType := {[ "constructor" := Text "constructor" 1 ]} |} ∧
  tally "__proto__" empty_tally = {| total := 1; byType := ∅ |}.
Proof. by vm_compute. Qed.

(** X4. The per-type tables are plain objects, and it shows.  In every state
    a manager reaches, in each of its three tallies (events, ACKs, NACKs):
    an own property of the table is a positive number only under a type that
    is no property name of [Object.prototype]; under such a name (as
    [constructor]) it is a string, the member's text with a digit 1 appended
    per increment; [__proto__] is never listed.  The table accounts for no
    more increments than the total, and for all of them when no notification
    of the run was for an event of type [__proto__]: then the numbers and the
    appended digits add up to the total. *)
Theorem per_type_counts_add_up cfg clk saved tr :
  let m := run (constructor cfg clk saved) tr in
  let im := internalMetrics m in
  counts_ok (Forall plain_type tr) (im_events im) ∧
  counts_ok (Forall plain_type tr) (acks im) ∧
  counts_ok (Forall plain_type tr) (nacks im) ∧
  (∀ t : Tally,
     byType t !! "__proto__" = None →
     total (tally "__proto__" t) = total t + 1 ∧
     byType (tally "__proto__" t) = byType t).
Proof.
  intros m im.
  destruct (run_tallies_ok (Forall plain_type tr) _ tr (λ H, H)
              (constructor_tallies_ok _ cfg clk saved)) as (He & Ha & Hn).
  split; [done|]. split; [done|]. split; [done|].
  intros t Ht. simpl. split; [lia|]. unfold bump. by rewrite Ht.
Qed.

(** ** Latencies and start times *)

Lemma push_latency_last latency l : last (push_latency latency l) = Some latency.
Proof.
  unfold push_latency. cbv zeta. case_decide.
  - apply slice_last_snoc. lia.
  - apply last_snoc.
Qed.

Lemma startTime_after_start clk event m :
  startTime_of event (handleEventStart clk event m) = truthy_num (Some (date_now clk)).
Proof.
  unfold startTime_of.
  change (eventTimers (internalMetrics ?x)) with (v_timers (view x)).
  rewrite handleEventStart_view. cbn [v_timers]. by rewrite lookup_insert_eq.
Qed.

(** X5. The latency of an event is measured from its pre-send notification:
    when a pre-send notification (read at a non-zero clock) is followed by
    the post-send notification of the event, the sample appended to the
    buffer and the latency stored in the event's record are the clock
    readings of the post-send handler minus the start time, and the start
    time is forgotten.  A further post-send notification for the event then
    finds no start time: it appends no sample and erases the latency of every
    record of the event. *)
Theorem latency_measured_once clk clk' event eventResult m :
  0 < maxEventHistory (config m) → date_now clk ≠ 0%Z →
  let m1 := handleEventStart clk event m in
  let m2 := handleEventComplete clk' event eventResult m1 in
  last (latencies (internalMetrics m2)) = Some (date_now clk' - date_now clk)%Z ∧
  (∃ r, last (events (state m2)) = Some r ∧ ed_id r = ev_id event ∧
        ed_latency r = Some (date_now' clk' - date_now clk)%Z) ∧
  eventTimers (internalMetrics m2) !! ev_id event = None ∧
  (∀ clk'' eventResult',
     let m3 := handleEventComplete clk'' event eventResult' m2 in
     latencies (internalMetrics m3) = latencies (internalMetrics m2) ∧
     ∀ r, r ∈ events (state m3) → ed_id r = ev_id event → ed_latency r = None).
Proof.
  intros Hmax Hnow m1 m2.
  assert (Hst : startTime_of event m1 = Some (date_now clk)).
  { subst m1. rewrite startTime_after_start. simpl. by rewrite decide_False. }
  assert (Hk : known event m1 = true) by (by apply known_after_start).
  pose proof (handleEventComplete_view clk' event eventResult m1) as Hv.
  cbv zeta in Hv. rewrite Hst, Hk in Hv. fold m2 in Hv.
  assert (Hlast : last (events (state m1)) = Some (eventDetails clk event)).
  { subst m1. rewrite view_events, handleEventStart_view. cbn [v_events].
    by apply slice_last_snoc. }
  assert (Ht2 : eventTimers (internalMetrics m2) !! ev_id event = None).
  { change (eventTimers (internalMetrics m2)) with (v_timers (view m2)).
    rewrite Hv. cbn [v_timers]. apply lookup_delete_eq. }
  split; [|split; [|split]].
  - rewrite view_latencies, Hv. cbn [v_latencies]. apply push_latency_last.
  - rewrite view_events, Hv. cbn [v_events view].
    rewrite fmap_last, Hlast. cbn [fmap option_fmap option_map].
    rewrite decide_True by done. eexists. split; [done|]. done.
  - done.
  - intros clk'' eventResult' m3.
    assert (Hst3 : startTime_of event m2 = None).
    { unfold startTime_of. by rewrite Ht2. }
    pose proof (handleEventComplete_view clk'' event eventResult' m2) as Hv3.
    cbv zeta in Hv3. rewrite Hst3 in Hv3. fold m3 in Hv3. split.
    + by rewrite !view_latencies, Hv3.
    + intros r. rewrite view_events, Hv3. cbn [v_events].
      intros (e & -> & _)%list_elem_of_fmap. case_decide as He; [done|].
      intros Hid. by rewrite Hid in He.
Qed.

Lemma latency_measured_once_witness :
  last (latencies (internalMetrics
          (handleEventComplete clock1 ping (Some ack)
             (handleEventStart clock0 ping manager0))))
  = Some (date_now clock1 - date_now clock0)%Z.
Proof.
  assert (H0 : 0 < maxEventHistory (config manager0)) by (vm_compute; lia).
  assert (H1 : date_now clock0 ≠ 0%Z) by discriminate.
  pose proof (latency_measured_once clock0 clock1 ping (Some ack) manager0 H0 H1) as H.
  cbv zeta in H. destruct H as [H _]. exact H.
Defined.

(** X6. Without a start time there is no latency: when the table of start
    times has no entry for the event (its pre-send notification was missed),
    or has the entry 0 (which counts as missing), a post-send notification
    appends no sample to the buffer, leaves every record of the event without
    a latency, and does not touch the table. *)
Theorem no_start_time_no_latency clk event eventResult m :
  eventTimers (internalMetrics m) !! ev_id event = None ∨
  eventTimers (internalMetrics m) !! ev_id event = Some 0%Z →
  let m' := handleEventComplete clk event eventResult m in
  latencies (internalMetrics m') = latencies (internalMetrics m) ∧
  (∀ r, r ∈ events (state m') → ed_id r = ev_id event → ed_latency r = None) ∧
  eventTimers (internalMetrics m') = eventTimers (internalMetrics m).
Proof.
  intros Htimer m'.
  assert (Hst : startTime_of event m = None).
  { unfold startTime_of. by destruct Htimer as [-> | ->]. }
  pose proof (handleEventComplete_view clk event eventResult m) as Hv.
  cbv zeta in Hv. rewrite Hst in Hv. fold m' in Hv.
  split; [|split].
  - by rewrite (view_latencies m'), Hv.
  - intros r. rewrite view_events, Hv. cbn [v_events].
    intros (e & -> & _)%list_elem_of_fmap. case_decide as He; [done|].
    intros Hid. by rewrite Hid in He.
  - change (eventTimers (internalMetrics m')) with (v_timers (view m')).
    by rewrite Hv.
Qed.

Definition clock_zero : Clock := {| date_now := 0; date_now' := 0; iso_now := "epoch" |}.

Lemma no_start_time_no_latency_witness :
  latencies (internalMetrics
     (handleEventComplete clock1 ping (Some ack)
        (handleEventStart clock_zero ping manager0)))
  = latencies (internalMetrics (handleEventStart clock_zero ping manager0)).
Proof.
  assert (H0 : eventTimers (internalMetrics (handleEventStart clock_zero ping manager0))
                 !! ev_id ping = None ∨
               eventTimers (internalMetrics (handleEventStart clock_zero ping manager0))
                 !! ev_id ping = Some 0%Z) by (right; reflexivity).
  pose proof (no_start_time_no_latency clock1 ping (Some ack)
                (handleEventStart clock_zero ping manager0) H0) as H.
  cbv zeta in H. destruct H as [H _]. exact H.
Defined.

(** ** The performance metrics of a snapshot *)

Lemma foldl_min_spec (x : Z) (l : list Z) :
  foldl Z.min x l ∈ x :: l ∧ ∀ y, y ∈ x :: l → (foldl Z.min x l <= y)%Z.
Proof.
  revert x. induction l as [|z l IH]; intros x; simpl.
  - split; [apply list_elem_of_here|]. intros y ->%list_elem_of_singleton. lia.
  - destruct (IH (Z.min x z)) as [Hin Hle]. split.
    + apply elem_of_cons in Hin as [Hin|Hin]; [|set_solver].
      rewrite Hin. destruct (Z.min_spec x z) as [[_ ->]|[_ ->]]; set_solver.
    + intros y Hy.
      assert (Hmin : (foldl Z.min (Z.min x z) l <= Z.min x z)%Z)
        by (apply Hle, list_elem_of_here).
      apply elem_of_cons in Hy as [->|Hy]; [lia|].
      apply elem_of_cons in Hy as [->|Hy]; [lia|].
      apply Hle. by apply list_elem_of_further.
Qed.

Lemma foldl_max_spec (x : Z) (l : list Z) :
  foldl Z.max x l ∈ x :: l ∧ ∀ y, y ∈ x :: l → (y <= foldl Z.max x l)%Z.
Proof.
  revert x. induction l as [|z l IH]; intros x; simpl.
  - split; [apply list_elem_of_here|]. intros y ->%list_elem_of_singleton. lia.
  - destruct (IH (Z.max x z)) as [Hin Hle]. split.
    + apply elem_of_cons in Hin as [Hin|Hin]; [|set_solver].
      rewrite Hin. destruct (Z.max_spec x z) as [[_ ->]|[_ ->]]; set_solver.
    + intros y Hy.
      assert (Hmax : (Z.max x z <= foldl Z.max (Z.max x z) l)%Z)
        by (apply Hle, list_elem_of_here).
      apply elem_of_cons in Hy as [->|Hy]; [lia|].
      apply elem_of_cons in Hy as [->|Hy]; [lia|].
      apply Hle. by apply list_elem_of_further.
Qed.

Lemma foldl_add_bounds (a b acc : Z) (l : list Z) :
  (∀ y, y ∈ l → (a <= y <= b)%Z) →
  (acc + a * Z.of_nat (length l) <= foldl Z.add acc l
   <= acc + b * Z.of_nat (length l))%Z.
Proof.
  revert acc. induction l as [|z l IH]; intros acc Hl; simpl; [lia|].
  assert (Hz : (a <= z <= b)%Z) by (apply Hl, list_elem_of_here).
  specialize (IH (acc + z)%Z (λ y Hy, Hl y (list_elem_of_further _ _ _ Hy))).
  lia.
Qed.

(** X7. The latency figures of a snapshot bracket the buffer: with samples
    in the buffer, the minimum and the maximum are samples of the buffer,
    every sample lies between them, and so does the average; with an empty
    buffer all three are 0. *)
Theorem latency_figures clk m :
  let l := latencies (internalMetrics m) in
  let pm := buildPerformanceMetrics clk m in
  (l = [] → minLatency pm = 0%Z ∧ maxLatency pm = 0%Z ∧ averageLatency pm = 0%Q) ∧
  (l ≠ [] →
     minLatency pm ∈ l ∧ maxLatency pm ∈ l ∧
     (∀ x, x ∈ l → (minLatency pm <= x <= maxLatency pm)%Z) ∧
     (inject_Z (minLatency pm) <= averageLatency pm <= inject_Z (maxLatency pm))%Q).
Proof.
  intros l pm. subst pm. unfold buildPerformanceMetrics. cbv zeta.
  fold l. cbn [minLatency maxLatency averageLatency]. split.
  - intros ->. done.
  - intros Hne. destruct l as [|x l'] eqn:Hl; [done|].
    destruct (foldl_min_spec x l') as [Hmin_in Hmin].
    destruct (foldl_max_spec x l') as [Hmax_in Hmax].
    split; [done|]. split; [done|]. split; [by auto|].
    rewrite decide_True by (simpl; lia).
    set (mn := foldl Z.min x l') in *. set (mx := foldl Z.max x l') in *.
    assert (Hb : ∀ y, y ∈ x :: l' → (mn <= y <= mx)%Z) by auto.
    pose proof (foldl_add_bounds mn mx 0 (x :: l') Hb) as Hsum.
    set (n := length (x :: l')) in *.
    assert (Hn : (0 < inject_Z (Z.of_nat n))%Q).
    { change 0%Q with (inject_Z 0). rewrite <- Zlt_Qlt. subst n. simpl. lia. }
    split.
    + apply Qle_shift_div_l; [done|].
      rewrite <- inject_Z_mult, <- Zle_Qle. lia.
    + apply Qle_shift_div_r; [done|].
      rewrite <- inject_Z_mult, <- Zle_Qle. lia.
Qed.

(** X8. The throughput and uptime of a snapshot: the events-per-second
    figure is never negative, it is 0 when the clock has not advanced since
    the manager was built (no division by zero), and otherwise it is the
    total times 1000 over the elapsed milliseconds; the uptime is the elapsed
    time in whole seconds, rounded down. *)
Theorem throughput_and_uptime clk m :
  let im := internalMetrics m in
  let pm := buildPerformanceMetrics clk m in
  let elapsed := (date_now clk - startTime im)%Z in
  (0 <= eventsPerSecond pm)%Q ∧
  ((elapsed <= 0)%Z → eventsPerSecond pm = 0%Q) ∧
  ((0 < elapsed)%Z →
     (eventsPerSecond pm == inject_Z (1000 * Z.of_nat (total (im_events im)))
                            / inject_Z elapsed)%Q) ∧
  (1000 * uptime pm <= elapsed < 1000 * (uptime pm + 1))%Z.
Proof.
  intros im pm elapsed. subst pm. unfold buildPerformanceMetrics. cbv zeta.
  fold im. fold elapsed. cbn [eventsPerSecond uptime].
  assert (Hup : (0 < inject_Z elapsed / 1000)%Q ↔ (0 < elapsed)%Z).
  { unfold Qlt. simpl. lia. }
  assert (Htot : (0 <= inject_Z (Z.of_nat (total (im_events im))))%Q).
  { change 0%Q with (inject_Z 0). rewrite <- Zle_Qle. lia. }
  split; [|split; [|split]].
  - destruct (Qlt_le_dec 0 (inject_Z elapsed / 1000)) as [Hpos|Hle]; [|done].
    apply Qle_shift_div_l; [done|]. by rewrite Qmult_0_l.
  - intros Hle. destruct (Qlt_le_dec 0 (inject_Z elapsed / 1000)) as [Hpos|_];
      [|done].
    apply Hup in Hpos. lia.
  - intros Hpos. destruct (Qlt_le_dec 0 (inject_Z elapsed / 1000)) as [_|Hle].
    + rewrite inject_Z_mult. field.
      intros Hz. rewrite Zlt_Qlt in Hpos. rewrite Hz in Hpos. by vm_compute in Hpos.
    + apply Hup in Hpos. by apply Qlt_not_le in Hpos.
  - pose proof (Z.div_mod elapsed 1000). pose proof (Z.mod_pos_bound elapsed 1000). lia.
Qed.

(** ** The snapshot and the live counters *)

(** The metrics and the two numbers of the delivery statistics are rebuilt
    by a tick and by [attachTo], and by nothing else; the tallies of the
    delivery statistics change with a post-send notification when they are
    shared. *)
Lemma step_snapshot m a :
  let s := state m in
  let s' := state (step m a) in
  match a with
  | Tick clk | Attach _ _ clk =>
    ∃ m0, internalMetrics m0 = internalMetrics m ∧
          metrics s' = buildPerformanceMetrics clk m0 ∧
          deliveryStats s' = buildDeliveryStats m0 ∧
          isConnected s' = true
  | PostSend _ _ eventResult =>
    metrics s' = metrics s ∧
    deliveryStats s'
    = shared_stats (isSuccess eventResult) (internalMetrics (step m a))
                   (deliveryStats s) ∧
    isConnected s' = isConnected s
  | _ =>
    metrics s' = metrics s ∧ deliveryStats s' = deliveryStats s ∧
    isConnected s' = isConnected s
  end.
Proof.
  cbv zeta. destruct a; cbn [step]; try done.
  - rewrite attachTo_manager. by eexists.
  - by rewrite detach_manager.
  - by destruct (handleEventComplete_state clk event eventResult m) as (-> & _).
  - by exists m.
  - by destruct (broker m).
Qed.

Lemma step_internalMetrics_settings m a :
  match a with
  | PreSend _ _ | PostSend _ _ _ => True
  | _ => internalMetrics (step m a) = internalMetrics m
  end.
Proof.
  destruct a; cbn [step]; try done.
  - by rewrite attachTo_manager.
  - by rewrite detach_manager.
  - by destruct (broker m).
Qed.

(** The ACK and NACK tallies after a step. *)
Lemma step_delivery_tallies m a :
  let im := internalMetrics m in
  let im' := internalMetrics (step m a) in
  match a with
  | PostSend _ event eventResult =>
    acks im' = (if isSuccess eventResult then tally (ev_type event) (acks im)
                else acks im) ∧
    nacks im' = (if isSuccess eventResult then nacks im
                 else tally (ev_type event) (nacks im))
  | _ => acks im' = acks im ∧ nacks im' = nacks im
  end.
Proof.
  cbv zeta. pose proof (step_internalMetrics_settings m a) as Him.
  destruct a; try (by rewrite Him); cbn [step].
  - rewrite handleEventStart_metrics.
    by destruct (countEvent_fields event
                   (set_eventTimers (<[ev_id event := date_now clk]>
                                       (eventTimers (internalMetrics m)))
                                    (internalMetrics m)))
      as (_ & _ & _ & -> & -> & _).
  - rewrite handleEventComplete_metrics.
    by destruct (completeMetrics_tallies clk event eventResult m)
      as (_ & -> & -> & _).
Qed.

(** What the snapshot of a manager shows, against the live counters: a
    total of events the counter has reached, a delivery total the ACK and
    NACK totals have reached, and rates; and as tallies the manager's own
    once a snapshot has been built, empty ones before. *)
Definition snapshot_sound (m : DevToolsManager) : Prop :=
  let s := state m in
  let ds := deliveryStats s in
  let im := internalMetrics m in
  totalEvents (metrics s) ≤ total (im_events im) ∧
  totalDelivery ds ≤ total (acks im) + total (nacks im) ∧
  (0 <= successRate (metrics s) <= 1)%Q ∧
  (0 <= ds_successRate ds <= 1)%Q ∧
  ds_shared ds = isConnected s ∧
  (if isConnected s then ds_acks ds = acks im ∧ ds_nacks ds = nacks im
   else ds_acks ds = empty_tally ∧ ds_nacks ds = empty_tally).

Lemma calculateSuccessRate_ext m m' :
  internalMetrics m' = internalMetrics m →
  calculateSuccessRate m' = calculateSuccessRate m.
Proof. unfold calculateSuccessRate. by intros ->. Qed.

Lemma refresh_snapshot_sound clk m0 im' s' :
  total (im_events (internalMetrics m0)) ≤ total (im_events im') →
  acks im' = acks (internalMetrics m0) → nacks im' = nacks (internalMetrics m0) →
  metrics s' = buildPerformanceMetrics clk m0 →
  deliveryStats s' = buildDeliveryStats m0 →
  isConnected s' = true →
  totalEvents (metrics s') ≤ total (im_events im') ∧
  totalDelivery (deliveryStats s') ≤ total (acks im') + total (nacks im') ∧
  (0 <= successRate (metrics s') <= 1)%Q ∧
  (0 <= ds_successRate (deliveryStats s') <= 1)%Q ∧
  ds_shared (deliveryStats s') = isConnected s' ∧
  (if isConnected s'
   then ds_acks (deliveryStats s') = acks im' ∧ ds_nacks (deliveryStats s') = nacks im'
   else ds_acks (deliveryStats s') = empty_tally ∧
        ds_nacks (deliveryStats s') = empty_tally).
Proof.
  intros He Ha Hn -> -> ->. rewrite Ha, Hn.
  unfold buildPerformanceMetrics, buildDeliveryStats. cbv zeta.
  cbn [totalEvents successRate ds_acks ds_nacks totalDelivery ds_successRate
       ds_shared].
  repeat split; try done; apply calculateSuccessRate_bounds.
Qed.

Lemma step_snapshot_sound m a : snapshot_sound m → snapshot_sound (step m a).
Proof.
  unfold snapshot_sound. cbv zeta. intros (He & Hd & Hr & Hr' & Hsh & Ht).
  pose proof (step_snapshot m a) as Hs. cbv zeta in Hs.
  pose proof (step_counters_mono m a "") as (_ & _ & Me & Ma & Mn).
  pose proof (step_delivery_tallies m a) as Hta. cbv zeta in Hta.
  destruct a;
    try (destruct Hs as (-> & -> & ->); destruct Hta as [-> ->];
         repeat split; first [lia|tauto|assumption]).
  - destruct Hs as (m0 & H0 & Hm & Hds & Hc). destruct Hta as [Ha Hn].
    apply (refresh_snapshot_sound clk m0); try done; rewrite H0; [lia|done|done].
  - destruct Hs as (Hm & Hds & Hc). destruct Hta as [Ha Hn].
    rewrite Hm, Hds, Hc. unfold shared_stats. rewrite Hsh.
    destruct (isConnected (state m)) eqn:Hcon.
    + cbn [totalDelivery ds_successRate ds_shared ds_acks ds_nacks].
      destruct Ht as [Hta Htn].
      repeat split; try first [lia|tauto|assumption].
      * destruct (isSuccess eventResult); [done|]. by rewrite Hta, Ha.
      * destruct (isSuccess eventResult); [|done]. by rewrite Htn, Hn.
    + destruct Ht as [Hta Htn].
      repeat split; try first [lia|tauto|assumption].
  - destruct Hs as (m0 & H0 & Hm & Hds & Hc). destruct Hta as [Ha Hn].
    apply (refresh_snapshot_sound clk m0); try done; rewrite H0; [lia|done|done].
Qed.

Lemma run_snapshot_sound m tr : snapshot_sound m → snapshot_sound (run m tr).
Proof.
  revert m. induction tr as [|a tr IH]; intros m Hm; [done|].
  cbn [run foldl]. apply IH. by apply step_snapshot_sound.
Qed.

Lemma constructor_snapshot_sound cfg clk saved :
  snapshot_sound (constructor cfg clk saved).
Proof.
  unfold constructor, loadPersistedState, snapshot_sound. simpl.
  destruct (enablePersistence cfg), saved; simpl; repeat split;
    first [lia | unfold Qle; simpl; lia].
Qed.

(** X9. The snapshot between ticks.  In every state a manager reaches, the
    total of events, the delivery total and the two success rates the
    snapshot shows are those of the latest tick or attach: the totals are at
    most the live ones and the rates lie between 0 and 1.  The ACK and NACK
    tallies it shows are another matter: before the first snapshot is built
    they are empty, and from then on they are the manager's own tallies,
    equal to the live ones at every moment.  So a notification leaves the
    metrics, the delivery total and the rate of the snapshot as they were,
    while a post-send notification shows at once in the tallies of the
    snapshot, whose totals then add up to one more than the delivery total
    beside them, until the next tick makes everything agree with the live
    counters and marks the panel connected. *)
Theorem snapshot_lags_counters cfg clk saved tr :
  let m := run (constructor cfg clk saved) tr in
  let s := state m in
  let ds := deliveryStats s in
  let im := internalMetrics m in
  (totalEvents (metrics s) ≤ total (im_events im) ∧
   totalDelivery ds ≤ total (acks im) + total (nacks im) ∧
   (0 <= successRate (metrics s) <= 1)%Q ∧
   (0 <= ds_successRate ds <= 1)%Q) ∧
  (if isConnected s then ds_acks ds = acks im ∧ ds_nacks ds = nacks im
   else ds_acks ds = empty_tally ∧ ds_nacks ds = empty_tally) ∧
  (∀ a, is_notification a →
     let s' := state (step m a) in
     metrics s' = metrics s ∧
     totalDelivery (deliveryStats s') = totalDelivery ds ∧
     ds_successRate (deliveryStats s') = ds_successRate ds ∧
     isConnected s' = isConnected s) ∧
  (∀ clk1 clk2 event eventResult,
     let ds' := deliveryStats
                  (state (run m [Tick clk1; PostSend clk2 event eventResult])) in
     total (ds_acks ds') + total (ds_nacks ds') = totalDelivery ds' + 1) ∧
  (∀ clk',
     let s' := state (step m (Tick clk')) in
     totalEvents (metrics s') = total (im_events im) ∧
     ds_acks (deliveryStats s') = acks im ∧
     ds_nacks (deliveryStats s') = nacks im ∧
     totalDelivery (deliveryStats s') = total (acks im) + total (nacks im) ∧
     isConnected s' = true).
Proof.
  intros m s ds im.
  pose proof (run_snapshot_sound _ tr (constructor_snapshot_sound cfg clk saved))
    as (He & Hd & Hr & Hr' & Hsh & Ht).
  fold m in He, Hd, Hr, Hr', Hsh, Ht. fold s in He, Hd, Hr, Hr', Hsh, Ht.
  split; [done|]. split; [done|]. split; [|split].
  - intros a Ha s'. subst s'.
    pose proof (step_snapshot m a) as Hs. cbv zeta in Hs.
    destruct a; try done.
    destruct Hs as (Hm & Hds & Hc). rewrite Hm, Hds, Hc.
    unfold shared_stats. subst ds s.
    by destruct (ds_shared (deliveryStats (state m))).
  - intros clk1 clk2 event eventResult ds'. subst ds'.
    cbn [run foldl].
    pose proof (step_snapshot (step m (Tick clk1))
                  (PostSend clk2 event eventResult)) as Hs.
    cbv zeta in Hs. destruct Hs as (_ & -> & _).
    pose proof (step_delivery_tallies (step m (Tick clk1))
                  (PostSend clk2 event eventResult)) as Hta.
    cbv zeta in Hta. destruct Hta as [Ha Hn].
    unfold shared_stats. cbn [step].
    change (deliveryStats (state (updateInternalState clk1 m)))
      with (buildDeliveryStats m).
    change (internalMetrics (updateInternalState clk1 m))
      with (internalMetrics m) in Ha, Hn.
    cbn [step] in Ha, Hn.
    cbn [buildDeliveryStats ds_shared ds_acks ds_nacks totalDelivery].
    destruct (isSuccess eventResult); rewrite ?Ha, ?Hn; simpl; lia.
  - done.
Qed.

(** ** Attaching and detaching *)

(** The hooks [attachTo] asks the broker for, and those it gets. *)
Definition hooks_requested (b : Broker) : list Hook :=
  match useOnSubscribeHandler b with Some _ => [OnSubscribe] | None => [] end
  ++ [BeforeSend; AfterSend].

Definition hooks_obtained (b : Broker) : list Hook :=
  match useOnSubscribeHandler b with
  | Some (Returns _) => [OnSubscribe]
  | _ => []
  end ++ [BeforeSend; AfterSend].

Lemma attachTo_results b t clk m :
  (attachTo b t clk m).1.2 = hooks_obtained b ∧
  (attachTo b t clk m).2
  = (UseHook <$> hooks_requested b) ++ [SetInterval (cfg_updateInterval (config m))].
Proof.
  unfold attachTo, hooks_obtained, hooks_requested.
  by destruct (useOnSubscribeHandler b) as [[|[]]|].
Qed.

Lemma detach_calls cleanupFunctions m :
  (detach cleanupFunctions m).2
  = (Unhook <$> cleanupFunctions)
    ++ match updateInterval m with Some t => [ClearInterval t] | None => [] end.
Proof. unfold detach, stopPeriodicUpdates. by destruct (updateInterval m). Qed.

(** X10. [attachTo] and the function it returns pair up.  [attachTo] always
    registers the pre-send and post-send hooks and starts the timer; it
    registers the subscription hook only when the broker has one, and a
    broker without it, or one that throws on it, is attached all the same.
    The returned function unregisters exactly the hooks that were obtained,
    in the order they were registered, and then clears the timer this
    [attachTo] started.  Attaching and detaching change neither the history
    nor the counters, and detaching keeps the reference to the broker. *)
Theorem attach_detach_pair b t clk m :
  let m1 := (attachTo b t clk m).1.1 in
  let cleanupFunctions := (attachTo b t clk m).1.2 in
  let m2 := (detach cleanupFunctions m1).1 in
  (attachTo b t clk m).2
    = (UseHook <$> hooks_requested b) ++ [SetInterval (cfg_updateInterval (config m))] ∧
  cleanupFunctions = hooks_obtained b ∧
  [BeforeSend; AfterSend] `suffix_of` cleanupFunctions ∧
  cleanupFunctions `sublist_of` hooks_requested b ∧
  (detach cleanupFunctions m1).2 = (Unhook <$> cleanupFunctions) ++ [ClearInterval t] ∧
  broker m1 = Some b ∧ updateInterval m1 = Some t ∧ isConnected (state m1) = true ∧
  broker m2 = Some b ∧ updateInterval m2 = None ∧
  events (state m2) = events (state m) ∧
  internalMetrics m2 = internalMetrics m.
Proof.
  cbv zeta. destruct (attachTo_results b t clk m) as [-> ->].
  rewrite detach_calls, detach_manager, attachTo_manager. simpl.
  repeat split.
  - unfold hooks_obtained. by eexists.
  - unfold hooks_obtained, hooks_requested.
    destruct (useOnSubscribeHandler b) as [[|[]]|]; simpl;
      repeat first [done | apply sublist_skip | apply sublist_cons].
Qed.

(** X11. A second [attachTo] without a detach in between loses the first
    timer: the manager remembers one timer handle only, so of the two
    returned functions the one called first clears the second timer, the
    other clears none, and the first timer is never cleared. *)
Theorem second_attach_loses_timer b1 b2 t1 t2 clk1 clk2 m :
  t1 ≠ t2 →
  let a1 := attachTo b1 t1 clk1 m in
  let a2 := attachTo b2 t2 clk2 a1.1.1 in
  let d1 := detach a1.1.2 a2.1.1 in
  let d2 := detach a2.1.2 d1.1 in
  d1.2 = (Unhook <$> hooks_obtained b1) ++ [ClearInterval t2] ∧
  d2.2 = Unhook <$> hooks_obtained b2 ∧
  (ClearInterval t1 ∉ d1.2 ++ d2.2) ∧
  broker d2.1 = Some b2.
Proof.
  intros Hne. cbv zeta.
  destruct (attachTo_results b1 t1 clk1 m) as [-> _].
  destruct (attachTo_results b2 t2 clk2 (attachTo b1 t1 clk1 m).1.1) as [-> _].
  rewrite !detach_calls, !detach_manager, !attachTo_manager. simpl.
  rewrite app_nil_r. repeat split.
  intros Hin. rewrite !elem_of_app, !list_elem_of_fmap in Hin.
  destruct Hin as [[(h & [=] & _) | Hin] | (h & [=] & _)].
  apply list_elem_of_singleton in Hin. congruence.
Qed.

Lemma second_attach_loses_timer_witness :
  let a1 := attachTo broker0 1%positive clock0 (constructor default_config clock0 None) in
  let a2 := attachTo broker0 2%positive clock1 a1.1.1 in
  (detach a1.1.2 a2.1.1).2
  = (Unhook <$> hooks_obtained broker0) ++ [ClearInterval 2%positive].
Proof.
  assert (H0 : 1%positive ≠ 2%positive) by discriminate.
  pose proof (second_attach_loses_timer broker0 broker0 1%positive 2%positive
                clock0 clock1 (constructor default_config clock0 None) H0) as H.
  cbv zeta in H. destruct H as [H _]. exact H.
Defined.

(** ** What recording depends on *)

(** Two managers that agree on the broker, the configuration, the history
    and the internal metrics; they may differ in settings, snapshot metrics,
    listeners and timer. *)
Definition same_recording (m m' : DevToolsManager) : Prop :=
  broker m = broker m' ∧ config m = config m' ∧
  events (state m) = events (state m') ∧
  internalMetrics m = internalMetrics m'.

Lemma same_recording_view m m' : same_recording m m' → view m = view m'.
Proof. intros (Hb & Hc & He & Hi). unfold view. by rewrite Hb, Hc, He, Hi. Qed.

Lemma completeMetrics_ext clk event eventResult m m' :
  same_recording m m' →
  completeMetrics clk event eventResult m = completeMetrics clk event eventResult m'.
Proof.
  intros (Hb & Hc & He & Hi).
  unfold completeMetrics, known, startTime_of, received_after.
  by rewrite Hb, He, Hi.
Qed.

Lemma view_same_recording m m' :
  view m = view m' → internalMetrics m = internalMetrics m' → same_recording m m'.
Proof.
  intros Hv Hi. repeat split; [| | |done].
  - apply (f_equal v_broker Hv).
  - apply (f_equal v_config Hv).
  - apply (f_equal v_events Hv).
Qed.

Lemma handleEventComplete_view_ext clk event eventResult m m' :
  view m = view m' →
  view (handleEventComplete clk event eventResult m)
  = view (handleEventComplete clk event eventResult m').
Proof.
  intros Hv. rewrite !handleEventComplete_view. cbv zeta.
  assert (Hk : known event m = known event m').
  { unfold known. by rewrite !view_events, Hv. }
  rewrite (startTime_of_view event m' m) by (by rewrite Hv).
  rewrite (received_after_view event eventResult m' m) by (by rewrite Hv).
  by rewrite Hk, Hv.
Qed.

Lemma step_same_recording m m' a :
  same_recording m m' → same_recording (step m a) (step m' a).
Proof.
  intros Hs. pose proof Hs as (Hb & Hc & He & Hi).
  destruct a; cbn [step].
  - rewrite !attachTo_manager. by repeat split.
  - rewrite !detach_manager. by repeat split.
  - done.
  - apply view_same_recording.
    + rewrite !handleEventStart_view. by rewrite (same_recording_view _ _ Hs).
    + rewrite !handleEventStart_metrics. by rewrite Hi.
  - apply view_same_recording.
    + by apply handleEventComplete_view_ext, same_recording_view.
    + rewrite !handleEventComplete_metrics. by apply completeMetrics_ext.
  - by repeat split.
  - by repeat split.
  - by repeat split.
  - by repeat split.
  - by repeat split.
  - rewrite <- Hb. destruct (broker m); [repeat split; simpl; done|exact Hs].
Qed.

Lemma run_same_recording m m' tr :
  same_recording m m' → same_recording (run m tr) (run m' tr).
Proof.
  revert m m'. induction tr as [|a tr IH]; intros m m' Hs; [done|].
  cbn [run foldl]. by apply IH, step_same_recording.
Qed.

(** The actions that record nothing. *)
Definition passive (a : Action) : bool :=
  match a with
  | Detach _ | SubscribeHook _ _ | Tick _ | UpdateSettings _
  | Subscribe _ | Unsubscribe _ => true
  | _ => false
  end.

Lemma passive_same_recording m a : passive a = true → same_recording (step m a) m.
Proof.
  destruct a; try done; intros _; cbn [step].
  rewrite detach_manager. by repeat split.
Qed.

(** X12. What the manager records depends on its configuration, its broker,
    its history and its counters only.  A settings update (the max-events
    setting included), a listener subscribing or unsubscribing, a tick, a
    subscription-hook call and a detach change none of these, and the history
    and counters after any further run are what they would have been without
    it: the manager has no detached state in which it stops recording, and
    the history bound stays the configured [maxEventHistory]. *)
Theorem passive_actions_leave_recording a m tr :
  passive a = true →
  let m1 := run (step m a) tr in
  let m2 := run m tr in
  events (state m1) = events (state m2) ∧
  internalMetrics m1 = internalMetrics m2 ∧
  broker m1 = broker m2 ∧ config m1 = config m2.
Proof.
  intros Ha. cbv zeta.
  destruct (run_same_recording _ _ tr (passive_same_recording m a Ha))
    as (Hb & Hc & He & Hi).
  done.
Qed.

(** A settings update that lowers the max-events setting to 1. *)
Definition one_event_setting (s : DevToolsSettings) : DevToolsSettings :=
  {| isOpen := isOpen s; position := position s; activeTab := activeTab s;
     eventFilters := eventFilters s; maxEvents := 1;
     autoScroll := autoScroll s; showTimestamps := showTimestamps s |}.

Lemma passive_actions_leave_recording_witness :
  events (state (run (step manager0 (UpdateSettings one_event_setting)) sample_run))
  = events (state (run manager0 sample_run)).
Proof.
  pose proof (passive_actions_leave_recording (UpdateSettings one_event_setting)
                manager0 sample_run eq_refl) as H.
  cbv zeta in H. destruct H as [H _]. exact H.
Defined.

(** X13. Clearing the history while an event is in flight makes the event
    count twice: after a pre-send notification, a clear and then the
    post-send notification of the same event, the total-event counter and
    the sent counter of the source have each grown by 2, and the history
    holds one record again, created by the post-send notification. *)
Theorem clear_in_flight_counts_twice clk clk' event eventResult m s :
  0 < maxEventHistory (config m) →
  ev_source event = Some s → s ≠ "" →
  let m' := run m [PreSend clk event; ClearEvents; PostSend clk' event eventResult] in
  total (im_events (internalMetrics m')) = total (im_events (internalMetrics m)) + 2 ∧
  countEventsSentByClient s m' = countEventsSentByClient s m + 2 ∧
  ed_id <$> events (state m') = [ev_id event].
Proof.
  intros Hmax Hsrc Hne m'. subst m'. cbn [run foldl step].
  set (m1 := handleEventStart clk event m).
  assert (Hk : known event (clearEvents m1) = false).
  { unfold known. apply bool_decide_eq_false_2. simpl. apply not_elem_of_nil. }
  assert (Ht : truthy (ev_source event) = Some s) by (by apply truthy_Some).
  unfold countEventsSentByClient.
  rewrite handleEventComplete_metrics, completeMetrics_sent, Hk.
  destruct (completeMetrics_tallies clk' event eventResult (clearEvents m1))
    as (-> & _).
  rewrite Hk. change (internalMetrics (clearEvents m1)) with (internalMetrics m1).
  subst m1. rewrite handleEventStart_metrics.
  destruct (countEvent_fields event
              (set_eventTimers (<[ev_id event := date_now clk]>
                                  (eventTimers (internalMetrics m)))
                               (internalMetrics m))) as (-> & -> & _).
  cbn [im_events clientEventsSent set_eventTimers].
  rewrite !sent_after_count, !decide_True, !tally_total by done.
  split; [lia|]. split; [lia|].
  rewrite view_events, handleEventComplete_view. cbn [v_events].
  rewrite Hk. cbn [view v_events v_config clearEvents updateStatePartial
                   with_state with_events state events config].
  rewrite <- list_fmap_compose.
  rewrite (list_fmap_ext _ ed_id).
  - change (config (handleEventStart clk event m)) with (config m).
    unfold slice_last. simpl. destruct (maxEventHistory (config m)); [lia|done].
  - intros i e _. simpl. by case_decide.
Qed.

Lemma clear_in_flight_counts_twice_witness :
  total (im_events (internalMetrics
     (run manager0 [PreSend clock0 ping; ClearEvents; PostSend clock1 ping (Some ack)])))
  = total (im_events (internalMetrics manager0)) + 2.
Proof.
  assert (H0 : 0 < maxEventHistory (config manager0)) by (vm_compute; lia).
  assert (H1 : "A" ≠ "") by discriminate.
  pose proof (clear_in_flight_counts_twice clock0 clock1 ping (Some ack) manager0 "A"
                H0 eq_refl H1) as H.
  cbv zeta in H. destruct H as [H _]. exact H.
Defined.

(** ** Persisted settings *)

(** [persistState]: the value under the storage key afterwards.  The key
    holds the settings, serialized; [writable] tells whether
    [localStorage.setItem] succeeds (a failure is caught and logged). *)
Definition persistState (writable : bool) (m : DevToolsManager)
    (storage : option DevToolsSettings) : option DevToolsSettings :=
  if enablePersistence (config m)
  then if writable then Some (settings (state m)) else storage
  else storage.

(** X14. Settings survive a reconstruction, and nothing else does: a manager
    built with persistence enabled from what [persistState] stored has the
    settings of the manager that stored them (the stored position wins over
    the configured one), an empty history and fresh counters.  With
    persistence disabled nothing is stored and nothing is loaded. *)
Theorem settings_round_trip cfg clk m storage :
  enablePersistence (config m) = true →
  enablePersistence cfg = true →
  let m' := constructor cfg clk (persistState true m storage) in
  settings (state m') = settings (state m) ∧
  events (state m') = [] ∧
  internalMetrics m' = initialMetrics (date_now clk) ∧
  broker m' = None ∧
  (∀ cfg' m0 stored writable,
     enablePersistence cfg' = false →
     settings (state (constructor cfg' clk stored))
       = settings (getInitialState cfg' (iso_now clk)) ∧
     (enablePersistence (config m0) = false →
        persistState writable m0 stored = stored)).
Proof.
  intros Hm Hcfg. cbv zeta.
  unfold persistState, constructor, loadPersistedState. simpl.
  rewrite Hm, Hcfg. do 4 (split; [done|]).
  intros cfg' m0 stored writable Hoff. rewrite Hoff. split; [done|].
  by intros ->.
Qed.

Lemma settings_round_trip_witness :
  settings (state (constructor default_config clock1
                     (persistState true
                        (updateSettings one_event_setting manager0) None)))
  = settings (state (updateSettings one_event_setting manager0)).
Proof.
  pose proof (settings_round_trip default_config clock1
                (updateSettings one_event_setting manager0) None
                eq_refl eq_refl) as H.
  cbv zeta in H. destruct H as [H _]. exact H.
Defined.

(** ** Listeners *)

Lemma step_listeners m a :
  listeners (step m a)
  = match a with
    | Detach _ => ∅
    | Subscribe l => {[l]} ∪ listeners m
    | Unsubscribe l => listeners m ∖ {[l]}
    | _ => listeners m
    end.
Proof.
  destruct a; cbn [step]; try done.
  - by rewrite attachTo_manager.
  - by rewrite detach_manager.
  - by destruct (handleEventComplete_state clk event eventResult m) as (_ & -> & _).
  - by destruct (broker m).
Qed.

(** The actions by which a listener subscribes. *)
Definition subscribes (a : Action) : bool :=
  match a with Subscribe _ => true | _ => false end.

(** X15. Detaching drops every listener, and attaching again does not bring
    them back: after the function returned by [attachTo] has run, the set of
    listeners is empty and stays empty through any run in which no listener
    subscribes anew, also when the manager is attached again.  Subscribing
    and then unsubscribing a listener that was not registered leaves the set
    as it was. *)
Theorem detach_drops_listeners cleanupFunctions m tr :
  forallb (λ a, negb (subscribes a)) tr = true →
  listeners (run (step m (Detach cleanupFunctions)) tr) = ∅ ∧
  (∀ l m0, l ∉ listeners m0 →
           listeners (unsubscribe l (subscribe l m0)) = listeners m0).
Proof.
  intros Htr. split.
  - assert (H0 : listeners (step m (Detach cleanupFunctions)) = ∅)
      by (by rewrite step_listeners).
    revert H0. generalize (step m (Detach cleanupFunctions)).
    induction tr as [|a tr IH]; intros m0 H0; [done|].
    cbn [forallb] in Htr. apply andb_true_iff in Htr as [Ha Htr].
    cbn [run foldl]. apply IH; [done|].
    rewrite step_listeners. destruct a; try done.
    rewrite H0. set_solver.
  - intros l m0 Hl. simpl. set_solver.
Qed.

Lemma detach_drops_listeners_witness :
  listeners (run (step (subscribe 7 manager0)
                       (Detach [OnSubscribe; BeforeSend; AfterSend]))
                 sample_run) = ∅.
Proof.
  pose proof (detach_drops_listeners [OnSubscribe; BeforeSend; AfterSend]
                (subscribe 7 manager0) sample_run eq_refl) as H.
  destruct H as [H _]. exact H.
Defined.

(** * The client list of a snapshot *)

Inductive ClientType :=
| InMemoryClient | PostMessageClient | ServiceWorkerClient
| WebSocketClient | WorkerClient.

Inductive ClientStatus := client_active | client_inactive | client_error.

(** A client instance of the broker: its id and the static [clientType] of
    its class, when the class declares one. *)
Record ClientInstance := {
  ci_id : string;
  ci_clientType : option ClientType;
}.

(** What the [subscriptions] field of a client entry holds: an array of
    event types, as the interface says, or the member of [Object.prototype]
    of the given name, which [buildClientsInfo] can put there. *)
Inductive Subscriptions :=
| Listed (eventTypes : list string)
| Inherited (member : string).

Record ClientInfo := {
  c_id : string;
  c_type : ClientType;
  c_subscriptions : Subscriptions;
  eventsReceived : nat;
  eventsSent : nat;
  c_lastActivity : option string;
  c_status : ClientStatus;
}.

(** The two queries of [buildClientsInfo], which looks for each method
    before calling it: [None] when the broker has no such method.  The
    subscription table is a plain object, given by its own properties, like
    the [{}] that stands in for it when the method is missing. *)
Record ClientQueries := {
  q_getAllClients : option (Answer (option (list ClientInstance)));
  q_getSubscriptions : option (Answer (option (gmap string (list string))));
}.

(** [hay.includes(needle)]. *)
Definition includes (needle hay : string) : bool :=
  match String.index 0 needle hay with Some _ => true | None => false end.

Definition getClientTypeFromInstance (clientInstance : ClientInstance)
    : option ClientType :=
  ci_clientType clientInstance.

Definition guessClientType (clientId : string) : ClientType :=
  if includes "websocket" clientId || includes "ws" clientId then WebSocketClient
  else if includes "postmessage" clientId || includes "iframe" clientId
       then PostMessageClient
  else if includes "worker" clientId then WorkerClient
  else InMemoryClient.

(** [subscriptions[clientId] || []]: the own property when there is one;
    otherwise the read falls back on [Object.prototype], whose members are
    truthy, and only under a name that has none is the result the empty
    array. *)
Definition subscriptions_of (subscriptions : gmap string (list string))
    (clientId : string) : Subscriptions :=
  match subscriptions !! clientId with
  | Some eventTypes => Listed eventTypes
  | None =>
    if decide (clientId ∈ object_prototype) then Inherited clientId else Listed []
  end.

Definition buildClientsInfo (q : ClientQueries) (clk : Clock) (m : DevToolsManager)
    : list ClientInfo :=
  match broker m with
  | None => []
  | Some _ =>
    match default (Returns (Some [])) (q_getAllClients q) with
    | Throws => []
    | Returns allClients =>
      match default (Returns (Some ∅)) (q_getSubscriptions q) with
      | Throws => []
      | Returns subscriptions =>
        match allClients, subscriptions with
        | None, _ => []
        | Some allClients, None => []
        | Some allClients, Some subscriptions =>
          map (λ clientInstance,
                 let clientId := ci_id clientInstance in
                 {| c_id := clientId;
                    c_type := default (guessClientType clientId)
                                      (getClientTypeFromInstance clientInstance);
                    c_subscriptions := subscriptions_of subscriptions clientId;
                    eventsReceived := countEventsReceivedByClient clientId m;
                    eventsSent := countEventsSentByClient clientId m;
                    c_lastActivity := Some (iso_now clk);
                    c_status := client_active |})
              allClients
        end
      end
    end
  end.

(** ** Substrings *)









(** X17. The client list never fails and shows the manager's counters: with
    a broker attached that answers both queries, the list has one entry per
    client of the broker, in the broker's order, each active and carrying the
    sent and received counters the manager keeps for its id.  As
    subscriptions an entry carries the list the table has under the client's
    id; without such an own property it carries the empty list, unless the
    id is a property name of [Object.prototype] (as [constructor]): then it
    carries that inherited member, which is no list.  Without a broker, or
    when a query throws or returns no array, the list is empty; a broker
    without the subscription query yields the clients as with an empty
    table, one without the client query yields no client. *)
Theorem client_list_shows_counters q clk m b clients subscriptions :
  broker m = Some b →
  q_getAllClients q = Some (Returns (Some clients)) →
  q_getSubscriptions q = Some (Returns (Some subscriptions)) →
  let l := buildClientsInfo q clk m in
  c_id <$> l = ci_id <$> clients ∧
  Forall (λ c, eventsReceived c = countEventsReceivedByClient (c_id c) m ∧
               eventsSent c = countEventsSentByClient (c_id c) m ∧
               c_status c = client_active ∧
               c_subscriptions c
               = match subscriptions !! c_id c with
                 | Some eventTypes => Listed eventTypes
                 | None => if decide (c_id c ∈ object_prototype)
                           then Inherited (c_id c) else Listed []
                 end) l ∧
  (∀ q', buildClientsInfo q' clk (with_broker None m) = []) ∧
  (∀ q', q_getAllClients q' = Some Throws ∨
         q_getAllClients q' = Some (Returns None) ∨
         q_getAllClients q' = None ∨
         q_getSubscriptions q' = Some Throws →
         buildClientsInfo q' clk m = []) ∧
  Forall (λ c, c_subscriptions c
               = if decide (c_id c ∈ object_prototype)
                 then Inherited (c_id c) else Listed [])
         (buildClientsInfo {| q_getAllClients := q_getAllClients q;
                              q_getSubscriptions := None |} clk m).
Proof.
  intros Hb Hc Hs l. subst l. unfold buildClientsInfo.
  rewrite Hb, Hc, Hs. simpl. split; [|split; [|split; [|split]]].
  - by rewrite <- list_fmap_compose.
  - apply Forall_fmap, Forall_forall. by intros ci _.
  - done.
  - intros q' [Hq | [Hq | [Hq | Hq]]]; rewrite Hq; simpl;
      repeat case_match; done.
  - rewrite ?Hc. simpl. apply Forall_fmap, Forall_forall. intros ci _. simpl.
    unfold subscriptions_of. by rewrite lookup_empty.
Qed.

Definition queries0 : ClientQueries :=
  {| q_getAllClients :=
       Some (Returns (Some [ {| ci_id := "A"; ci_clientType := None |};
                             {| ci_id := "B"; ci_clientType := Some WorkerClient |} ]));
     q_getSubscriptions :=
       Some (Returns (Some {[ "A" := ["pong"]; "B" := ["ping"] ]})) |}.

Lemma client_list_shows_counters_witness :
  c_id <$> buildClientsInfo queries0 clock1 manager0 = ["A"; "B"].
Proof.
  pose proof (client_list_shows_counters queries0 clock1 manager0 broker0 _ _
                eq_refl eq_refl eq_refl) as H.
  cbv zeta in H. destruct H as [H _]. exact H.
Defined.

(** * The callers of the manager *)

(** ** The send form of the debug tab *)

Record MessageForm := {
  f_eventType : string;
  f_recipient : string;
  f_source : string;
  f_data : string;
}.

Section DebugTab.
(** [JSON.parse], from the text of the form to a payload; [None] when it
    throws. *)
Variable JSON_parse : string → option Payload.

(** [s.trim()]. *)
Variable trim : string → string.

(** [handleSendMessage] with the manager's [sendTestMessage] as
    [onSendTestMessage], as [EventBrokerDevTools] wires it: the calls made,
    and whether the handler returns (it catches whatever is thrown). *)
Definition handleSendMessage (messageForm : MessageForm) (m : DevToolsManager)
    : list Call * Answer unit :=
  match JSON_parse (f_data messageForm) with
  | None => ([], Returns ())
  | Some parsedData =>
    let recipient :=
      if decide (f_recipient messageForm = "*") then None
      else Some (f_recipient messageForm) in
    let '(calls, _) :=
      sendTestMessage (f_eventType messageForm) parsedData
        (Some {| opt_recipient := recipient;
                 opt_source := Some (f_source messageForm) |}) m in
    (calls, Returns ())
  end.

(** A click on the "Send Message" button, the one caller of
    [handleSendMessage]: the button is disabled, and the click does nothing,
    while the event type of the form is blank. *)
Definition sendButton (messageForm : MessageForm) (m : DevToolsManager)
    : list Call * Answer unit :=
  if decide (trim (f_eventType messageForm) = "") then ([], Returns ())
  else handleSendMessage messageForm m.

(** X18. The send form of the debug tab never throws and makes at most one
    broker call: none while the event type is blank, when the payload text
    does not parse, or when no broker is attached; otherwise a broadcast when
    the recipient field is [*] or empty, and a unicast to the recipient field
    in every other case.  The sender is the source field, or [devtools] when
    that is empty, and the event type is passed on as typed, untrimmed. *)
Theorem send_form_dispatch messageForm m :
  let calls := (sendButton messageForm m).1 in
  let sender := if decide (f_source messageForm = "") then "devtools"
                else f_source messageForm in
  (sendButton messageForm m).2 = Returns () ∧
  length calls ≤ 1 ∧
  (trim (f_eventType messageForm) = "" ∨
   JSON_parse (f_data messageForm) = None ∨ broker m = None → calls = []) ∧
  (∀ parsedData b,
     trim (f_eventType messageForm) ≠ "" →
     JSON_parse (f_data messageForm) = Some parsedData → broker m = Some b →
     calls = [if decide (f_recipient messageForm = "*" ∨ f_recipient messageForm = "")
              then Broadcast (f_eventType messageForm) sender parsedData
              else SendTo (f_eventType messageForm) sender
                          (f_recipient messageForm) parsedData]).
Proof.
  cbv zeta. unfold sendButton.
  destruct (decide (trim (f_eventType messageForm) = "")) as [Hblank|Htype].
  { simpl. split; [done|]. split; [lia|]. split; [done|]. by intros ? ? ?. }
  unfold handleSendMessage.
  destruct (JSON_parse (f_data messageForm)) as [d|] eqn:Hp.
  2:{ simpl. split; [done|]. split; [lia|]. split; [done|]. by intros ? ? _ [=]. }
  destruct (sendTestMessage _ _ _ _) as [calls r] eqn:Hsend. simpl.
  unfold sendTestMessage in Hsend. destruct (broker m) as [b|] eqn:Hb.
  - injection Hsend as <- _. split; [done|]. split; [simpl; lia|].
    split; [by intros [?|[[=]|[=]]]|].
    intros d' b' _ [= <-] _. f_equal. unfold or_else, truthy. simpl.
    destruct (decide (f_source messageForm = "")),
             (decide (f_recipient messageForm = "*")) as [Hstar|Hstar]; simpl.
    + by rewrite decide_True by auto.
    + destruct (decide (f_recipient messageForm = "")) as [He|He]; simpl.
      * by rewrite decide_True by auto.
      * rewrite decide_True by done. by rewrite decide_False by (by intros [|]).
    + by rewrite decide_True by auto.
    + destruct (decide (f_recipient messageForm = "")) as [He|He]; simpl.
      * by rewrite decide_True by auto.
      * rewrite decide_True by done. by rewrite decide_False by (by intros [|]).
  - injection Hsend as <- _. split; [done|]. split; [simpl; lia|].
    split; [done|]. by intros ? ? _ _ [=].
Qed.
End DebugTab.

(** ** The event filter of the events tab *)

(** [x] and then [f], when [x] returns. *)
Definition and_then {A B} (x : Answer A) (f : A → Answer B) : Answer B :=
  match x with Throws => Throws | Returns a => f a end.

(** [l.some(f)]: the elements in order, up to the first that satisfies [f]
    or makes it throw. *)
Fixpoint array_some {A} (f : A → Answer bool) (l : list A) : Answer bool :=
  match l with
  | [] => Returns false
  | x :: l => and_then (f x) (λ b, if b then Returns true else array_some f l)
  end.

(** [l.filter(f)]: the elements in order; it throws when [f] does. *)
Fixpoint array_filter {A} (f : A → Answer bool) (l : list A) : Answer (list A) :=
  match l with
  | [] => Returns []
  | x :: l =>
    and_then (f x) (λ b,
      and_then (array_filter f l) (λ l', Returns (if b then x :: l' else l')))
  end.

Section EventsTab.
(** [s.toLowerCase()]. *)
Variable toLowerCase : string → string.

(** [JSON.stringify] of a payload; [None] when it throws or yields
    [undefined], on which [toLowerCase] throws. *)
Variable JSON_stringify : Payload → option string.

(** The text search of [filteredEvents]: the fields are tried in order, up
    to the first that contains the term.  The source of a record can be
    missing, and [event.source.toLowerCase()] then throws. *)
Definition matchesSearch (searchTerm : string) (event : EventDetails) : Answer bool :=
  let searchLower := toLowerCase searchTerm in
  if includes searchLower (toLowerCase (ed_type event)) then Returns true
  else
    match ed_source event with
    | None => Throws
    | Some source =>
      if includes searchLower (toLowerCase source) then Returns true
      else if includes searchLower (toLowerCase (ed_recipient event))
      then Returns true
      else
        match JSON_stringify (ed_data event) with
        | None => Throws
        | Some text => Returns (includes searchLower (toLowerCase text))
        end
    end.

(** Whether one of the clients of the recipient filter is subscribed to the
    type of a broadcast event.  [client?.subscriptions.includes(type)] is
    [undefined] when no client has the id, and throws when the subscriptions
    of the client are no array. *)
Definition isSubscribed (recipients : list string) (clients : list ClientInfo)
    (event : EventDetails) : Answer bool :=
  array_some
    (λ clientId,
       match find (λ c, bool_decide (c_id c = clientId)) clients with
       | Some client =>
         match c_subscriptions client with
         | Listed eventTypes => Returns (bool_decide (ed_type event ∈ eventTypes))
         | Inherited _ => Throws
         end
       | None => Returns false
       end)
    recipients.

(** The predicate [filteredEvents] filters by. *)
Definition passesFilters (searchTerm : string) (settings : DevToolsSettings)
    (clients : list ClientInfo) (event : EventDetails) : Answer bool :=
  let f := eventFilters settings in
  and_then (if bool_decide (searchTerm = "") then Returns true
            else matchesSearch searchTerm event) (λ matches,
  if negb matches then Returns false
  else if bool_decide (0 < length (types f))
          && negb (bool_decide (ed_type event ∈ types f)) then Returns false
  else if bool_decide (0 < length (sources f))
          && negb (match ed_source event with
                   | Some source => bool_decide (source ∈ sources f)
                   | None => false
                   end) then Returns false
  else
    and_then (if bool_decide (0 < length (recipients f))
              then if bool_decide (ed_recipient event = "*")
                   then isSubscribed (recipients f) clients event
                   else Returns (bool_decide (ed_recipient event ∈ recipients f))
              else Returns true) (λ addressed,
    if negb addressed then Returns false
    else if bool_decide (0 < length (status f))
            && negb (bool_decide (ed_status event ∈ status f)) then Returns false
    else Returns true)).

Definition filteredEvents (searchTerm : string) (settings : DevToolsSettings)
    (clients : list ClientInfo) (events : list EventDetails)
    : Answer (list EventDetails) :=
  array_filter (passesFilters searchTerm settings clients) events.

(** The "Clear Filters" button of the tab. *)
Definition clearFilters (s : DevToolsSettings) : DevToolsSettings :=
  {| isOpen := isOpen s; position := position s; activeTab := activeTab s;
     eventFilters := {| types := []; sources := []; recipients := []; status := [] |};
     maxEvents := maxEvents s; autoScroll := autoScroll s;
     showTimestamps := showTimestamps s |}.

Inductive FilterType := by_recipient | by_source.

(** [switchToEventsWithFilter] of the panel: the settings update it asks
    for. *)
Definition switchToEventsWithFilter (filterType : FilterType) (clientId : string)
    (s : DevToolsSettings) : DevToolsSettings :=
  {| isOpen := isOpen s; position := position s; activeTab := tab_events;
     eventFilters :=
       {| types := [];
          sources := match filterType with by_source => [clientId] | _ => [] end;
          recipients := match filterType with by_recipient => [clientId] | _ => [] end;
          status := [] |};
     maxEvents := maxEvents s; autoScroll := autoScroll s;
     showTimestamps := showTimestamps s |}.

Lemma array_filter_ext {A} (f g : A → Answer bool) (l : list A) :
  (∀ x, f x = g x) → array_filter f l = array_filter g l.
Proof. intros Hfg. induction l as [|x l IH]; simpl; [done|]. by rewrite Hfg, IH. Qed.

Lemma array_filter_returns {A} (f : A → bool) (l : list A) :
  array_filter (λ x, Returns (f x)) l = Returns (List.filter f l).
Proof.
  induction l as [|x l IH]; simpl; [done|]. rewrite IH. simpl. by destruct (f x).
Qed.

Lemma array_filter_Throws {A} (f : A → Answer bool) (l : list A) :
  array_filter f l = Throws ↔ ∃ x, x ∈ l ∧ f x = Throws.
Proof.
  induction l as [|x l IH]; simpl.
  - split; [done|]. by intros (x & ?%elem_of_nil & _).
  - destruct (f x) as [|b] eqn:Hx; simpl.
    + split; [|done]. intros _. exists x. split; [apply list_elem_of_here|done].
    + destruct (array_filter f l) as [|l'] eqn:Hl; simpl.
      * split; [|done]. intros _. destruct (proj1 IH eq_refl) as (y & Hy & Hfy).
        exists y. split; [by apply list_elem_of_further|done].
      * split; [done|]. intros (y & Hy & Hfy).
        apply elem_of_cons in Hy as [->|Hy]; [congruence|].
        assert (Hno : Returns l' = @Throws (list A)) by (apply IH; by exists y).
        done.
Qed.

Lemma array_filter_snoc_Throws {A} (f : A → Answer bool) (l : list A) x :
  f x = Throws → array_filter f (l ++ [x]) = Throws.
Proof.
  intros Hx. apply array_filter_Throws. exists x. split; [|done].
  apply elem_of_app. right. apply list_elem_of_here.
Qed.

(** With no filter set, the search alone decides. *)
Lemma passesFilters_cleared searchTerm s clients event :
  passesFilters searchTerm (clearFilters s) clients event
  = if bool_decide (searchTerm = "") then Returns true
    else matchesSearch searchTerm event.
Proof.
  unfold passesFilters. simpl. case_bool_decide; [done|].
  destruct (matchesSearch searchTerm event) as [|[]]; done.
Qed.

Lemma matchesSearch_Throws searchTerm e :
  matchesSearch searchTerm e = Throws
  ↔ includes (toLowerCase searchTerm) (toLowerCase (ed_type e)) = false ∧
    (ed_source e = None ∨
     ∃ source, ed_source e = Some source ∧
       includes (toLowerCase searchTerm) (toLowerCase source) = false ∧
       includes (toLowerCase searchTerm) (toLowerCase (ed_recipient e)) = false ∧
       JSON_stringify (ed_data e) = None).
Proof.
  unfold matchesSearch. cbv zeta.
  destruct (includes _ (toLowerCase (ed_type e))) eqn:Ht.
  { split; [done|]. by intros [? _]. }
  destruct (ed_source e) as [source|] eqn:Hsrc.
  2:{ split; [|done]. intros _. split; [done|]. by left. }
  destruct (includes _ (toLowerCase source)) eqn:Hs.
  { split; [done|]. intros [_ [?|(s' & [= <-] & ? & _)]]; congruence. }
  destruct (includes _ (toLowerCase (ed_recipient e))) eqn:Hr.
  { split; [done|]. intros [_ [?|(s' & _ & _ & ? & _)]]; congruence. }
  destruct (JSON_stringify (ed_data e)) eqn:Hj.
  { split; [done|]. intros [_ [?|(s' & _ & _ & _ & ?)]]; congruence. }
  split; [|done]. intros _. split; [done|]. right. by exists source.
Qed.

(** X19. The search of the events tab can throw.  Without a search term and
    with the filters cleared, the tab shows the whole history.  With a search
    term and the filters cleared it tries each record in order, and throws
    exactly when the history holds a record that makes the search throw: one
    whose type does not contain the term (both in lower case) and which
    either has no source, or has a source and a recipient that do not contain
    the term and a payload that cannot be serialized.  The manager stores an
    event without source as such a record: right after its pre-send
    notification, a search term that its type does not contain makes the tab
    throw, whatever the filters and the clients are. *)
Theorem events_tab_search searchTerm clients m updates :
  let m' := updateSettings clearFilters (updateSettings updates m) in
  let shown term :=
    filteredEvents term (settings (state m')) clients (events (state m')) in
  shown "" = Returns (events (state m)) ∧
  (searchTerm ≠ "" →
   shown searchTerm = array_filter (matchesSearch searchTerm) (events (state m)) ∧
   (shown searchTerm = Throws
    ↔ ∃ e, e ∈ events (state m) ∧ matchesSearch searchTerm e = Throws)) ∧
  (∀ e, matchesSearch searchTerm e = Throws
        ↔ includes (toLowerCase searchTerm) (toLowerCase (ed_type e)) = false ∧
          (ed_source e = None ∨
           ∃ source, ed_source e = Some source ∧
             includes (toLowerCase searchTerm) (toLowerCase source) = false ∧
             includes (toLowerCase searchTerm) (toLowerCase (ed_recipient e)) = false ∧
             JSON_stringify (ed_data e) = None)) ∧
  (∀ clk event s clients',
     searchTerm ≠ "" → ev_source event = None →
     includes (toLowerCase searchTerm) (toLowerCase (ev_type event)) = false →
     0 < maxEventHistory (config m) →
     filteredEvents searchTerm s clients'
                    (events (state (handleEventStart clk event m))) = Throws).
Proof.
  cbv zeta. split; [|split; [|split]].
  - unfold filteredEvents. simpl.
    rewrite (array_filter_ext _ (λ _, Returns true))
      by (intros e; apply passesFilters_cleared).
    rewrite (array_filter_returns (λ _, true)).
    f_equal. induction (events (state m)) as [|e l IH]; simpl; [done|]. by rewrite IH.
  - intros Hterm.
    assert (Heq : filteredEvents searchTerm
                    (settings (state (updateSettings clearFilters
                                        (updateSettings updates m)))) clients
                    (events (state (updateSettings clearFilters
                                      (updateSettings updates m))))
                  = array_filter (matchesSearch searchTerm) (events (state m))).
    { unfold filteredEvents. simpl. apply array_filter_ext. intros e.
      rewrite passesFilters_cleared. by rewrite bool_decide_eq_false_2. }
    split; [done|]. rewrite Heq. apply array_filter_Throws.
  - apply matchesSearch_Throws.
  - intros clk event s clients' Hterm Hsrc Htype Hmax.
    unfold filteredEvents.
    rewrite view_events, handleEventStart_view. cbn [v_events v_config view].
    unfold slice_last. rewrite length_app. simpl.
    rewrite drop_app_le by lia.
    apply array_filter_snoc_Throws.
    unfold passesFilters. rewrite bool_decide_eq_false_2 by done.
    assert (Hthrows : matchesSearch searchTerm (eventDetails clk event) = Throws).
    { apply matchesSearch_Throws. split; [done|]. by left. }
    by rewrite Hthrows.
Qed.

(** X20. Navigating from a client to its events: after the settings update
    of [switchToEventsWithFilter], the events tab (without a search term)
    shows, for the source filter, exactly the events whose source is the
    client, and for the recipient filter, the events addressed to the client
    together with the broadcast events of a type that the client, as found
    in the client list, is subscribed to; no broadcast event when the list
    has no such client.  When the subscriptions of that client are no list,
    the tab throws if the history holds a broadcast event.  The update
    selects the events tab and leaves the history and the counters alone. *)
Theorem navigate_to_client_events clientId clients m :
  let at_source := updateSettings (switchToEventsWithFilter by_source clientId) m in
  let at_recipient := updateSettings (switchToEventsWithFilter by_recipient clientId) m in
  let found := find (λ c, bool_decide (c_id c = clientId)) clients in
  let shown := filteredEvents "" (settings (state at_recipient)) clients
                              (events (state at_recipient)) in
  filteredEvents "" (settings (state at_source)) clients (events (state at_source))
  = Returns (List.filter (λ e, bool_decide (ed_source e = Some clientId))
                         (events (state m))) ∧
  (∀ client eventTypes,
     found = Some client → c_subscriptions client = Listed eventTypes →
     shown = Returns (List.filter
                        (λ e, if bool_decide (ed_recipient e = "*")
                              then bool_decide (ed_type e ∈ eventTypes)
                              else bool_decide (ed_recipient e = clientId))
                        (events (state m)))) ∧
  (found = None →
   shown = Returns (List.filter
                      (λ e, if bool_decide (ed_recipient e = "*") then false
                            else bool_decide (ed_recipient e = clientId))
                      (events (state m)))) ∧
  (∀ client member,
     found = Some client → c_subscriptions client = Inherited member →
     (shown = Throws ↔ ∃ e, e ∈ events (state m) ∧ ed_recipient e = "*")) ∧
  activeTab (settings (state at_source)) = tab_events ∧
  activeTab (settings (state at_recipient)) = tab_events ∧
  internalMetrics at_source = internalMetrics m ∧
  internalMetrics at_recipient = internalMetrics m.
Proof.
  cbv zeta.
  assert (Hrec : filteredEvents ""
                   (settings (state (updateSettings
                      (switchToEventsWithFilter by_recipient clientId) m))) clients
                   (events (state (updateSettings
                      (switchToEventsWithFilter by_recipient clientId) m)))
                 = array_filter
                     (λ e, if bool_decide (ed_recipient e = "*")
                           then match find (λ c, bool_decide (c_id c = clientId)) clients with
                                | Some client =>
                                  match c_subscriptions client with
                                  | Listed eventTypes =>
                                    Returns (bool_decide (ed_type e ∈ eventTypes))
                                  | Inherited _ => Throws
                                  end
                                | None => Returns false
                                end
                           else Returns (bool_decide (ed_recipient e = clientId)))
                     (events (state m))).
  { unfold filteredEvents. simpl. apply array_filter_ext. intros e.
    unfold passesFilters, isSubscribed. simpl.
    case_bool_decide; simpl.
    - destruct (find _ _) as [c|]; [|done].
      destruct (c_subscriptions c) as [tys|]; [|done]. simpl.
      by case_bool_decide.
    - rewrite (bool_decide_ext (ed_recipient e ∈ [clientId])
                               (ed_recipient e = clientId))
        by apply list_elem_of_singleton.
      by case_bool_decide. }
  rewrite Hrec. split; [|split; [|split; [|split; [|done]]]].
  - unfold filteredEvents. simpl. rewrite <- array_filter_returns.
    apply array_filter_ext. intros e. unfold passesFilters. simpl.
    destruct (ed_source e) as [s|]; simpl.
    + rewrite (bool_decide_ext (s ∈ [clientId]) (Some s = Some clientId)).
      * by case_bool_decide.
      * rewrite list_elem_of_singleton. naive_solver.
    + first [done | by case_bool_decide].
  - intros client eventTypes -> Hl. rewrite Hl, <- array_filter_returns.
    apply array_filter_ext. intros e. by case_bool_decide.
  - intros ->. rewrite <- array_filter_returns.
    apply array_filter_ext. intros e. by case_bool_decide.
  - intros client member -> Hl. rewrite Hl, array_filter_Throws.
    split.
    + intros (e & He & Hthrows). exists e. split; [done|].
      by case_bool_decide.
    + intros (e & He & Hstar). exists e. split; [done|].
      by rewrite bool_decide_eq_true_2.
Qed.
End EventsTab.

(** An event without source. *)
Definition anonymous_ping : Event := mkEvent "e4" "ping" None (Some "*").

Lemma events_tab_search_witness :
  filteredEvents id Some "pong" (settings (state manager0)) []
                 (events (state (handleEventStart clock1 anonymous_ping manager0)))
  = Throws.
Proof.
  assert (H1 : "pong" ≠ "") by discriminate.
  assert (H2 : includes (id "pong") (id (ev_type anonymous_ping)) = false)
    by reflexivity.
  assert (H3 : 0 < maxEventHistory (config manager0)) by (vm_compute; lia).
  pose proof (events_tab_search id Some "pong" [] manager0 id) as H.
  cbv zeta in H. destruct H as (_ & _ & _ & H).
  exact (H clock1 anonymous_ping (settings (state manager0)) [] H1 eq_refl H2 H3).
Defined.

(** ** The system health of the overview tab *)

Inductive Health := Disconnected | NotEnoughEvents | Healthy | Warning | Critical.

(** [health] of the overview tab, by its label; [NotEnoughEvents] is the
    dash shown below two deliveries.  The rate is compared as an exact
    rational, as it is computed in [calculateSuccessRate]. *)
Definition health (state : DevToolsState) : Health :=
  if negb (isConnected state) then Disconnected
  else
    let sum := total (ds_acks (deliveryStats state))
               + total (ds_nacks (deliveryStats state)) in
    let minEventsForHealth := 2 in
    if decide (sum < minEventsForHealth) then NotEnoughEvents
    else if Qle_bool (8 # 10) (ds_successRate (deliveryStats state)) then Healthy
    else if Qle_bool (7 # 10) (ds_successRate (deliveryStats state)) then Warning
    else Critical.

Lemma ratio_at_least (p : Z) (q : positive) (a s : nat) :
  0 < s →
  Qle_bool (p # q) (inject_Z (Z.of_nat a) / inject_Z (Z.of_nat s)) = true
  ↔ (p * Z.of_nat s ≤ Z.pos q * Z.of_nat a)%Z.
Proof.
  intros Hs. rewrite Qle_bool_iff.
  assert (Hpos : (0 < inject_Z (Z.of_nat s))%Q).
  { change 0%Q with (inject_Z 0). rewrite <- Zlt_Qlt. lia. }
  split.
  - intros H. apply (Qmult_le_r _ _ _ Hpos) in H.
    unfold Qdiv in H. rewrite <- Qmult_assoc, (Qmult_comm (/ _)), Qmult_inv_r,
      Qmult_1_r in H by (intros E; rewrite E in Hpos; by apply Qlt_irrefl in Hpos).
    unfold Qle, Qmult, inject_Z in H. simpl in H. lia.
  - intros H. apply Qle_shift_div_l; [done|].
    unfold Qle, Qmult, inject_Z. simpl. lia.
Qed.

Lemma step_isConnected m a :
  isConnected (state (step m a)) = true
  ↔ isConnected (state m) = true ∨ refreshes a.
Proof.
  pose proof (step_snapshot m a) as Hs. cbv zeta in Hs.
  destruct a; cbn [refreshes];
    try (destruct Hs as (_ & _ & ->); naive_solver);
    destruct Hs as (? & _ & _ & _ & ->); naive_solver.
Qed.

Lemma health_Disconnected s : health s = Disconnected ↔ isConnected s = false.
Proof.
  unfold health. destruct (isConnected s); simpl; [|done].
  split; [|done]. repeat case_match; done.
Qed.

(** X21. The health shown by the overview tab.  A manager that has seen
    neither an attach nor a tick is shown as disconnected; once it is shown
    otherwise no action brings "Disconnected" back, detaching included.
    After a tick the label is read off the live delivery counters: the dash
    below two deliveries, then "Healthy" when the ACKs are at least four
    times the NACKs (a rate of 0.8), "Warning" when three times the ACKs are
    at least seven times the NACKs (a rate of 0.7), and "Critical"
    otherwise. *)
Theorem health_follows_snapshot cfg clk saved tr :
  let m := run (constructor cfg clk saved) tr in
  let a := total (acks (internalMetrics m)) in
  let n := total (nacks (internalMetrics m)) in
  (Forall (λ act, ¬ refreshes act) tr → health (state m) = Disconnected) ∧
  (∀ act, health (state m) ≠ Disconnected →
          health (state (step m act)) ≠ Disconnected) ∧
  (∀ clk', health (state (step m (Tick clk')))
           = if decide (a + n < 2) then NotEnoughEvents
             else if decide (4 * n ≤ a) then Healthy
             else if decide (7 * n ≤ 3 * a) then Warning
             else Critical).
Proof.
  intros m a n. split; [|split].
  - intros Htr. apply health_Disconnected. subst m.
    assert (H0 : isConnected (state (constructor cfg clk saved)) = false).
    { unfold constructor, loadPersistedState. simpl.
      by destruct (enablePersistence cfg), saved. }
    revert H0. generalize (constructor cfg clk saved).
    induction Htr as [|act tr Hact _ IH]; intros m0 H0; [done|].
    cbn [run foldl]. apply IH.
    apply not_true_is_false. rewrite step_isConnected. intros [H|H]; [|done].
    by rewrite H in H0.
  - intros act. rewrite !health_Disconnected, !not_false_iff_true.
    rewrite step_isConnected. tauto.
  - intros clk'. unfold health. cbn [step]. unfold updateInternalState, updateStatePartial.
    simpl. unfold calculateSuccessRate. cbv zeta. fold a n.
    destruct (decide (a + n < 2)) as [Hlt|Hge]; [done|].
    destruct (decide (0 < a + n)) as [Hs|]; [|lia].
    pose proof (ratio_at_least 8 10 a (a + n) Hs) as H8.
    pose proof (ratio_at_least 7 10 a (a + n) Hs) as H7.
    clearbody a n. clear m.
    destruct (decide (4 * n ≤ a)) as [H4|H4].
    { rewrite (proj2 H8) by lia. by rewrite decide_True by lia. }
    rewrite (decide_False (P := _ ≤ a)) by lia.
    assert (E8 : Qle_bool (8 # 10)
                   (inject_Z (Z.of_nat a) / inject_Z (Z.of_nat (a + n))) = false)
      by (apply not_true_iff_false; rewrite H8; lia).
    rewrite E8.
    destruct (decide (7 * n ≤ 3 * a)) as [H3|H3].
    { rewrite (proj2 H7) by lia. by rewrite decide_True by lia. }
    assert (E7 : Qle_bool (7 # 10)
                   (inject_Z (Z.of_nat a) / inject_Z (Z.of_nat (a + n))) = false)
      by (apply not_true_iff_false; rewrite H7; lia).
    rewrite E7.
    by rewrite decide_False by lia.
Qed.
